(** * Flyweight: a typed overlay on an atomic buffer, with string fields

    Shallow embedding of [aeron-common/src/main/cpp/common/Flyweight.h].

    The class template [Flyweight<struct_t>] binds a view to a buffer at a
    byte offset: its constructor overlays [struct_t] on the buffer and keeps a
    by-value copy of the buffer handle together with the base offset; the two
    protected accessors [stringGet] and [stringPut] translate an offset that
    is relative to the base into an absolute one and delegate to the buffer's
    length-prefixed string operations.

    Layout of this file:
    - machine integers ([int], [std::int32_t], [size_t]) as [Z] with their
      conversions and wrap-around written out;
    - a small state-and-fault monad (a C++ call either returns or throws, and
      in both cases leaves a memory behind);
    - [Module Flyweight]: the class, over an arbitrary buffer collaborator:
      what its constructor and accessors compute, and the accessors as member
      functions that run on the object as well as on the memory;
    - [Module AtomicBuffer]: the collaborator [concurrent::AtomicBuffer],
      whose header is not part of the sources at hand;
    - [Module View]: the class instantiated at that collaborator;
    - the theorems. *)

From Stdlib Require Import ZArith Lia List String Strings.Byte.
From stdpp Require Import base option list gmap.

Local Open Scope Z_scope.

(** ** Machine integers *)

(** [int] and [std::int32_t]: 32-bit two's complement. *)
Definition INT_MIN : Z := - 2 ^ 31.
Definition INT_MAX : Z := 2 ^ 31 - 1.

Definition is_int (z : Z) : Prop := INT_MIN <= z <= INT_MAX.

(** Conversion to [std::int32_t]: the value modulo [2^32] in the signed
    range. *)
Definition to_int32 (z : Z) : Z := (z + 2 ^ 31) mod 2 ^ 32 - 2 ^ 31.

Section SizeT.
(** [size_bits] is the width of [size_t] on the platform, 32 or 64: at least
    that of [int], so that in [size_t + int] it is the [int] operand that is
    converted. *)
Variable size_bits : Z.

Definition SIZE_MAX : Z := 2 ^ size_bits - 1.

Definition is_size_t (z : Z) : Prop := 0 <= z <= SIZE_MAX.

(** Conversion of a signed integer to [size_t] (what the usual arithmetic
    conversions do to the [int] operand of [size_t + int], and what an
    implicit conversion does at a call site). *)
Definition to_size_t (z : Z) : Z := z mod 2 ^ size_bits.

(** [size_t + size_t]. *)
Definition size_add (a b : Z) : Z := (a + b) mod 2 ^ size_bits.
End SizeT.

(** ** Calls that return or throw, over a memory *)

Inductive result (E A : Type) : Type :=
| Ok (a : A)
| Fault (e : E).
Arguments Ok {E A} a.
Arguments Fault {E A} e.

(** A computation takes the memory, and gives back either a value or the
    fault it raised, together with the memory it leaves. *)
Definition M (Mem E A : Type) : Type := Mem -> result E A * Mem.

Definition ret {Mem E A} (a : A) : M Mem E A := fun m => (Ok a, m).

Definition bind {Mem E A B} (c : M Mem E A) (k : A -> M Mem E B) : M Mem E B :=
  fun m =>
    match c m with
    | (Ok a, m') => k a m'
    | (Fault e, m') => (Fault e, m')
    end.

Notation "'let*' x ':=' c 'in' k" := (bind c (fun x => k))
  (at level 10, x name, c at level 100, k at level 200).

(** ** The class template *)

Module Flyweight.
Section Flyweight.
(** The collaborator: the type of buffer handles, of the memory they point
    into, of typed references [struct_t&], and of faults. *)
Context {Buffer Mem Ref E : Type}.

Variable size_bits : Z.

(** [buffer.overlayStruct<struct_t>(offset)] *)
Variable overlayStruct : Buffer -> Z -> M Mem E Ref.
(** [buffer.getStringUtf8(offset)] *)
Variable getStringUtf8 : Buffer -> Z -> M Mem E string.
(** [buffer.putStringUtf8(offset, s)] *)
Variable putStringUtf8 : Buffer -> Z -> string -> M Mem E Z.

(** The data members, in declaration order. [m_buffer] is held by value: it
    is a copy of the handle, not of the bytes it points to. *)
Record t : Type := {
  m_struct : Ref;
  m_buffer : Buffer;
  m_baseOffset : Z
}.

(** [Flyweight (AtomicBuffer& buffer, size_t offset)] *)
Definition new (buffer : Buffer) (offset : Z) : M Mem E t :=
  let* r := overlayStruct buffer offset in
  ret {| m_struct := r; m_buffer := buffer; m_baseOffset := offset |}.

(** [std::string stringGet(size_t offset)] *)
Definition stringGet (this : t) (offset : Z) : M Mem E string :=
  getStringUtf8 (m_buffer this) (size_add size_bits (m_baseOffset this) offset).

(** [std::int32_t stringPut(int offset, const std::string& s)]: the [int]
    operand is converted to [size_t] before the addition, and the result is
    returned as [std::int32_t]. *)
Definition stringPut (this : t) (offset : Z) (s : string) : M Mem E Z :=
  let* n := putStringUtf8 (m_buffer this)
              (size_add size_bits (m_baseOffset this) (to_size_t size_bits offset)) s in
  ret (to_int32 n).

(** *** The accessors as member functions

    Both accessors are non-const member functions: a call runs on the object
    it is made on as well as on the memory, and leaves both behind, also when
    it throws. A body is made of what a C++ member function body can do to
    its object: read a data member, assign the data members, and call the
    collaborator with the memory. *)
Definition method (A : Type) : Type := t -> Mem -> result E A * t * Mem.

Definition method_bind {A B} (c : method A) (k : A -> method B) : method B :=
  fun this m =>
    match c this m with
    | (Ok a, this', m') => k a this' m'
    | (Fault e, this', m') => (Fault e, this', m')
    end.

(** Reading a data member of [*this]. *)
Definition member {A} (f : t -> A) : method A :=
  fun this m => (Ok (f this), this, m).

(** Assigning data members of [*this]. *)
Definition assign (f : t -> t) : method unit :=
  fun this m => (Ok tt, f this, m).

(** Calling the collaborator: it works on the memory, and what it returns or
    throws is what the expression returns or throws. *)
Definition on_buffer {A} (c : M Mem E A) : method A :=
  fun this m => let '(r, m') := c m in (r, this, m').

(** The body of [stringGet]:
    [return m_buffer.getStringUtf8(m_baseOffset + offset);] *)
Definition stringGet_member (offset : Z) : method string :=
  method_bind (member m_buffer) (fun buffer =>
  method_bind (member m_baseOffset) (fun base =>
  on_buffer (getStringUtf8 buffer (size_add size_bits base offset)))).

(** The body of [stringPut]:
    [return m_buffer.putStringUtf8(m_baseOffset + offset, s);] *)
Definition stringPut_member (offset : Z) (s : string) : method Z :=
  method_bind (member m_buffer) (fun buffer =>
  method_bind (member m_baseOffset) (fun base =>
  method_bind
    (on_buffer (putStringUtf8 buffer
                  (size_add size_bits base (to_size_t size_bits offset)) s))
    (fun n => member (fun _ => to_int32 n)))).

(** A call on a view, and what it yields. *)
Inductive call : Type :=
| CallGet (offset : Z)
| CallPut (offset : Z) (s : string).

Inductive outcome : Type :=
| Got (r : result E string)
| Written (r : result E Z).

(** Making a call on a view: the member function runs on the view and the
    memory, and the view it leaves is the receiver of the next call. *)
Definition invoke (c : call) (this : t) (m : Mem) : outcome * t * Mem :=
  match c with
  | CallGet offset =>
      let '(r, this', m') := stringGet_member offset this m in (Got r, this', m')
  | CallPut offset s =>
      let '(r, this', m') := stringPut_member offset s this m in (Written r, this', m')
  end.

(** A sequence of calls, run whether or not one of them faults (a caller
    may catch the fault and go on). *)
Fixpoint run (cs : list call) (this : t) (m : Mem) : list outcome * t * Mem :=
  match cs with
  | [] => ([], this, m)
  | c :: cs' =>
      let '(o, this', m') := invoke c this m in
      let '(os, this'', m'') := run cs' this' m' in
      (o :: os, this'', m'')
  end.

(** Calls made on two views in any order: each call names the view it is
    made on; both views and the memory are carried along. *)
Inductive receiver : Type :=
| First
| Second.

Fixpoint run2 (cs : list (receiver * call)) (v1 v2 : t) (m : Mem)
  : list outcome * (t * t) * Mem :=
  match cs with
  | [] => ([], (v1, v2), m)
  | (First, c) :: cs' =>
      let '(o, v1', m') := invoke c v1 m in
      let '(os, vs, m'') := run2 cs' v1' v2 m' in
      (o :: os, vs, m'')
  | (Second, c) :: cs' =>
      let '(o, v2', m') := invoke c v2 m in
      let '(os, vs, m'') := run2 cs' v1 v2' m' in
      (o :: os, vs, m'')
  end.

(** The calls that write, and the outcomes they yield. *)
Definition is_put (c : call) : bool :=
  match c with
  | CallGet _ => false
  | CallPut _ _ => true
  end.

Definition is_written (o : outcome) : bool :=
  match o with
  | Got _ => false
  | Written _ => true
  end.

(** Which strings are valid UTF-8, according to the collaborator. *)
Variable valid_utf8 : string -> bool.

(** What it means for the collaborator's string operations to form a codec
    on a handle: a valid string that was put at an offset is what get returns
    at that offset, on the memory the put left. *)
Definition codec_correct (b : Buffer) : Prop :=
  forall (a : Z) (s : string) (m m' : Mem) (n : Z),
    putStringUtf8 b a s m = (Ok n, m') ->
    valid_utf8 s = true ->
    fst (getStringUtf8 b a m') = Ok s.
End Flyweight.
End Flyweight.

(** ** The buffer collaborator *)

Module AtomicBuffer.

(** Modelled from the spec: the faults the Buffer reports ([AtomicBuffer.h] is
    not among the sources): an access that would exceed the capacity, and
    stored bytes that are not valid UTF-8 on read. *)
Inductive fault : Type :=
| BoundsFault
| EncodingFault.

(** Modelled from the spec: the storage buffers point into, an addressable
    span of bytes. Cells that were never written read as zero. *)
Abbreviation memory := (gmap Z byte).

(** Modelled from the spec: the buffer handle, "a cheap descriptor
    (pointer/length pair) copied by value; duplicating it does not duplicate
    the underlying storage". *)
Record t : Type := {
  ptr : Z;
  capacity : Z
}.

(** Modelled from the spec: the typed reference an overlay yields, onto the
    byte range [[ref_addr, ref_addr + ref_size)] of the storage. *)
Record ref : Type := {
  ref_addr : Z;
  ref_size : Z
}.

(** Modelled from the spec: the length field of a string, four bytes ("4-byte
    length prefix"). *)
Definition LENGTH_PREFIX_SIZE : Z := 4.

(** Modelled from the spec: reading one cell of the storage. *)
Definition load (m : memory) (a : Z) : byte := default x00 (m !! a).

(** Modelled from the spec: reading the [n] cells from address [a] on. *)
Fixpoint load_bytes (m : memory) (a : Z) (n : nat) : list byte :=
  match n with
  | O => []
  | S n' => load m a :: load_bytes m (a + 1) n'
  end.

(** Modelled from the spec: writing the bytes [bs] from address [a] on. *)
Fixpoint store_bytes (m : memory) (a : Z) (bs : list byte) : memory :=
  match bs with
  | [] => m
  | b :: bs' => store_bytes (<[a := b]> m) (a + 1) bs'
  end.

(** Modelled from the spec: the low eight bits of an integer, as a byte. *)
Definition byte_of_Z (z : Z) : byte :=
  default x00 (Byte.of_N (Z.to_N (z mod 256))).

(** Modelled from the spec: the value of a byte, in [0, 255]. *)
Definition Z_of_byte (b : byte) : Z := Z.of_N (Byte.to_N b).

(** Modelled from the spec: the length field as a 32-bit two's complement
    integer, least significant byte first. *)
Definition encode_int32 (n : Z) : list byte :=
  [byte_of_Z n; byte_of_Z (n / 2 ^ 8); byte_of_Z (n / 2 ^ 16); byte_of_Z (n / 2 ^ 24)].

(** Modelled from the spec: the integer a length field holds. *)
Definition decode_int32 (bs : list byte) : Z :=
  match bs with
  | [b0; b1; b2; b3] =>
      to_int32 (Z_of_byte b0 + 2 ^ 8 * Z_of_byte b1
                + 2 ^ 16 * Z_of_byte b2 + 2 ^ 24 * Z_of_byte b3)
  | _ => 0
  end.

(** Modelled from the spec: a byte within a range of values, the test the
    UTF-8 check below is made of. *)
Definition between (lo hi : N) (b : byte) : bool :=
  ((lo <=? Byte.to_N b) && (Byte.to_N b <=? hi))%N.

(** Modelled from the spec: a UTF-8 continuation byte. *)
Definition continuation : byte -> bool := between 0x80 0xBF.

(** Modelled from the spec: the first two bytes of a three-byte UTF-8
    sequence (no overlong form, no surrogate). *)
Definition lead3 (b0 b1 : byte) : bool :=
  between 0xE0 0xE0 b0 && between 0xA0 0xBF b1
  || between 0xE1 0xEC b0 && continuation b1
  || between 0xED 0xED b0 && between 0x80 0x9F b1
  || between 0xEE 0xEF b0 && continuation b1.

(** Modelled from the spec: the first two bytes of a four-byte UTF-8
    sequence (no overlong form, nothing above U+10FFFF). *)
Definition lead4 (b0 b1 : byte) : bool :=
  between 0xF0 0xF0 b0 && between 0x90 0xBF b1
  || between 0xF1 0xF3 b0 && continuation b1
  || between 0xF4 0xF4 b0 && between 0x80 0x8F b1.

(** Modelled from the spec: "valid UTF-8", as the well-formed byte sequences
    of the Unicode standard. *)
Fixpoint utf8_well_formed (bs : list byte) : bool :=
  match bs with
  | [] => true
  | b0 :: r0 =>
      if between 0x00 0x7F b0 then utf8_well_formed r0
      else
        match r0 with
        | [] => false
        | b1 :: r1 =>
            if between 0xC2 0xDF b0 then continuation b1 && utf8_well_formed r1
            else
              match r1 with
              | [] => false
              | b2 :: r2 =>
                  if lead3 b0 b1 then continuation b2 && utf8_well_formed r2
                  else
                    match r2 with
                    | [] => false
                    | b3 :: r3 =>
                        lead4 b0 b1 && continuation b2 && continuation b3
                        && utf8_well_formed r3
                    end
              end
        end
  end.

(** Modelled from the spec: [utf8(s)], the bytes of a string; a
    [std::string] holds the UTF-8 bytes of its text. *)
Definition utf8 (s : string) : list byte := list_byte_of_string s.

(** Modelled from the spec: [byteLength(utf8(s))]. *)
Definition byteLength (s : string) : Z := Z.of_nat (length (utf8 s)).

(** Modelled from the spec: "a string with a valid UTF-8 encoding". *)
Definition valid_utf8 (s : string) : bool := utf8_well_formed (utf8 s).

(** Modelled from the spec: the check every access goes through, that the
    range [[offset, offset + n)] lies within the capacity. *)
Definition boundsCheck (b : t) (offset n : Z) : bool :=
  (0 <=? offset) && (0 <=? n) && (offset + n <=? capacity b).

(** Modelled from the spec: "overlayRecord<RecordType>(offset) -> typed
    reference: reinterpret bytes at offset as RecordType; must fault/report on
    insufficient capacity". [sizeof_struct] is [sizeof(struct_t)]. No byte is
    read or written. *)
Definition overlayStruct (sizeof_struct : Z) (b : t) (offset : Z)
  : M memory fault ref :=
  fun m =>
    if boundsCheck b offset sizeof_struct
    then (Ok {| ref_addr := ptr b + offset; ref_size := sizeof_struct |}, m)
    else (Fault BoundsFault, m).

(** Modelled from the spec: "getStringUtf8(offset) -> string: decode a
    length-prefixed UTF-8 string at offset": "read a length field, then that
    many bytes, decode as UTF-8"; "if the encoded length would read past the
    Buffer's capacity, or the bytes are not valid UTF-8, the Buffer
    collaborator reports a fault". *)
Definition getStringUtf8 (b : t) (offset : Z) : M memory fault string :=
  fun m =>
    if boundsCheck b offset LENGTH_PREFIX_SIZE then
      let len := decode_int32 (load_bytes m (ptr b + offset) 4) in
      if boundsCheck b (offset + LENGTH_PREFIX_SIZE) len then
        let bs := load_bytes m (ptr b + offset + LENGTH_PREFIX_SIZE) (Z.to_nat len) in
        if utf8_well_formed bs
        then (Ok (string_of_list_byte bs), m)
        else (Fault EncodingFault, m)
      else (Fault BoundsFault, m)
    else (Fault BoundsFault, m).

(** Modelled from the spec: "putStringUtf8(offset, string) ->
    totalBytesWritten: encode and write a length-prefixed UTF-8 string at
    offset, returning prefix+payload size": "write the UTF-8 byte length, then
    the UTF-8 bytes", "with no trailing terminator"; bounds faults are the
    Buffer's. *)
Definition putStringUtf8 (b : t) (offset : Z) (s : string) : M memory fault Z :=
  fun m =>
    let len := byteLength s in
    if boundsCheck b offset (LENGTH_PREFIX_SIZE + len) then
      let m1 := store_bytes m (ptr b + offset) (encode_int32 len) in
      let m2 := store_bytes m1 (ptr b + offset + LENGTH_PREFIX_SIZE) (utf8 s) in
      (Ok (LENGTH_PREFIX_SIZE + len), m2)
    else (Fault BoundsFault, m).

(** Modelled from the spec: what a length-prefixed encoder leaves for [s],
    "a length field (count of UTF-8 bytes) immediately followed by that many
    UTF-8-encoded bytes". *)
Definition encode (s : string) : list byte :=
  encode_int32 (byteLength s) ++ utf8 s.

(** Modelled from the spec: the storage of [b] holds the encoding of [s] at
    [offset]. *)
Definition encoded_at (m : memory) (b : t) (offset : Z) (s : string) : Prop :=
  load_bytes m (ptr b + offset) (length (encode s)) = encode s.

(** Not a fact of the spec, which bounds no capacity: the buffers whose
    capacity the 32-bit signed sizes of this interface can express (the
    length field is four bytes, and [stringPut] reports the size of a write
    as [std::int32_t]). It is a hypothesis of the theorems that name it, and
    beyond it the size contract, the chaining and the read-back fail, as the
    counterexamples below show. *)
Definition wf (b : t) : Prop := 0 <= capacity b <= INT_MAX.

End AtomicBuffer.

(** ** The class over that collaborator *)

Module View.
Section View.
Variable size_bits : Z.
(** [sizeof(struct_t)] *)
Variable sizeof_struct : Z.

Definition t : Type := @Flyweight.t AtomicBuffer.t AtomicBuffer.ref.

Definition new : AtomicBuffer.t -> Z -> M AtomicBuffer.memory AtomicBuffer.fault t :=
  Flyweight.new (AtomicBuffer.overlayStruct sizeof_struct).

Definition stringGet : t -> Z -> M AtomicBuffer.memory AtomicBuffer.fault string :=
  Flyweight.stringGet size_bits AtomicBuffer.getStringUtf8.

Definition stringPut : t -> Z -> string -> M AtomicBuffer.memory AtomicBuffer.fault Z :=
  Flyweight.stringPut size_bits AtomicBuffer.putStringUtf8.

Definition run : list Flyweight.call -> t -> AtomicBuffer.memory ->
                 list Flyweight.outcome * t * AtomicBuffer.memory :=
  Flyweight.run size_bits AtomicBuffer.getStringUtf8 AtomicBuffer.putStringUtf8.

(** How the accessors are meant to be used, by a message type derived from
    the class: the variable-length fields of a record are put one after the
    other, each at the offset of the previous one plus the size [stringPut]
    returned for it; the result is the offset after the last field. *)
Fixpoint putFields (this : t) (offset : Z) (ss : list string)
  : M AtomicBuffer.memory AtomicBuffer.fault Z :=
  match ss with
  | [] => ret offset
  | s :: ss' =>
      let* n := stringPut this offset s in
      putFields this (offset + n) ss'
  end.

(** The reader's side: [count] fields are read one after the other, each at
    the offset of the previous one plus its length field and its bytes. *)
Fixpoint getFields (this : t) (offset : Z) (count : nat)
  : M AtomicBuffer.memory AtomicBuffer.fault (list string) :=
  match count with
  | O => ret []
  | S count' =>
      let* s := stringGet this offset in
      let* rest := getFields this
                     (offset + (AtomicBuffer.LENGTH_PREFIX_SIZE + AtomicBuffer.byteLength s))
                     count' in
      ret (s :: rest)
  end.
End View.
End View.

(** ** A small record on a 64-byte buffer

    The buffer, the storage and the view of the scenario the specification
    works through: capacity 64, an 8-byte fixed record, the view at offset 0,
    on a 64-bit platform. *)

Module Scenario.
Definition size_bits : Z := 64.
Definition sizeof_struct : Z := 8.

Definition buffer : AtomicBuffer.t :=
  {| AtomicBuffer.ptr := 4096; AtomicBuffer.capacity := 64 |}.

Definition blank : AtomicBuffer.memory := ∅.

Definition view : View.t :=
  {| Flyweight.m_struct :=
       {| AtomicBuffer.ref_addr := 4096; AtomicBuffer.ref_size := 8 |};
     Flyweight.m_buffer := buffer;
     Flyweight.m_baseOffset := 0 |}.

(** A view of a 4-byte record over the same buffer, at offset 0. *)
Definition narrow : View.t :=
  {| Flyweight.m_struct :=
       {| AtomicBuffer.ref_addr := 4096; AtomicBuffer.ref_size := 4 |};
     Flyweight.m_buffer := buffer;
     Flyweight.m_baseOffset := 0 |}.

(** A second view over the same buffer, at offset 16. *)
Definition inner : View.t :=
  {| Flyweight.m_struct :=
       {| AtomicBuffer.ref_addr := 4112; AtomicBuffer.ref_size := 8 |};
     Flyweight.m_buffer := buffer;
     Flyweight.m_baseOffset := 16 |}.

(** The storage once [name] was put at 8, and once [tag] was put at 15. *)
Definition named : AtomicBuffer.memory :=
  snd (View.stringPut size_bits view 8 "abc" blank).

Definition tagged : AtomicBuffer.memory :=
  snd (View.stringPut size_bits view 15 "" named).

(** A string that is not valid UTF-8: the single byte [0xFF]. *)
Definition invalid : string := string_of_list_byte [xff].
End Scenario.

(** ** A buffer of 8 GiB

    A buffer whose capacity exceeds [INT_MAX], a view at its start, and a
    string of [2^31] zero bytes, which fits the buffer many times. *)

Module Huge.
Definition size_bits : Z := 64.

Definition buffer : AtomicBuffer.t :=
  {| AtomicBuffer.ptr := 4096; AtomicBuffer.capacity := 2 ^ 33 |}.

Definition view : View.t :=
  {| Flyweight.m_struct :=
       {| AtomicBuffer.ref_addr := 4096; AtomicBuffer.ref_size := 8 |};
     Flyweight.m_buffer := buffer;
     Flyweight.m_baseOffset := 0 |}.

Definition payload : string :=
  string_of_list_byte (List.repeat x00 (Z.to_nat (2 ^ 31))).
End Huge.

(** ** Facts about the storage and the length field *)

Module BufferFacts.
Import AtomicBuffer.

Lemma load_insert_same (m : memory) a b : load (<[a := b]> m) a = b.
Proof. unfold load. by rewrite lookup_insert_eq. Qed.

Lemma load_insert_other (m : memory) a b x : a <> x -> load (<[a := b]> m) x = load m x.
Proof. intros Hne. unfold load. by rewrite lookup_insert_ne. Qed.

Lemma load_store_bytes_outside bs : forall (m : memory) a x,
  x < a \/ a + Z.of_nat (length bs) <= x ->
  load (store_bytes m a bs) x = load m x.
Proof.
  induction bs as [|b bs IH]; intros m a x Hx; simpl in *; [done|].
  rewrite IH by lia. apply load_insert_other. lia.
Qed.

Lemma load_bytes_store_bytes bs : forall (m : memory) a,
  load_bytes (store_bytes m a bs) a (length bs) = bs.
Proof.
  induction bs as [|b bs IH]; intros m a; simpl; [done|].
  rewrite IH. f_equal.
  rewrite load_store_bytes_outside by lia. apply load_insert_same.
Qed.

Lemma load_bytes_ext n : forall (m m' : memory) a,
  (forall x, a <= x < a + Z.of_nat n -> load m' x = load m x) ->
  load_bytes m' a n = load_bytes m a n.
Proof.
  induction n as [|n IH]; intros m m' a Hx; simpl; [done|].
  f_equal; [apply Hx; lia | apply IH; intros; apply Hx; lia].
Qed.

Lemma load_bytes_app n1 : forall (m : memory) a n2,
  load_bytes m a (n1 + n2) = load_bytes m a n1 ++ load_bytes m (a + Z.of_nat n1) n2.
Proof.
  induction n1 as [|n1 IH]; intros m a n2.
  - simpl. by rewrite Z.add_0_r.
  - cbn [Nat.add load_bytes app]. rewrite IH. do 3 f_equal. lia.
Qed.

Lemma length_load_bytes n : forall (m : memory) a, length (load_bytes m a n) = n.
Proof. induction n; intros; simpl; [done|]. by rewrite IHn. Qed.

Lemma Z_of_byte_of_Z z : Z_of_byte (byte_of_Z z) = z mod 256.
Proof.
  unfold Z_of_byte, byte_of_Z.
  pose proof (Z.mod_pos_bound z 256 ltac:(lia)) as Hb.
  destruct (Byte.of_N (Z.to_N (z mod 256))) as [y|] eqn:Hy; simpl.
  - apply Byte.to_of_N in Hy. rewrite Hy. lia.
  - apply Byte.of_N_None_iff in Hy. lia.
Qed.

Lemma decode_encode_int32 n : is_int n -> decode_int32 (encode_int32 n) = n.
Proof.
  unfold is_int, INT_MIN, INT_MAX, decode_int32, encode_int32, to_int32.
  intros Hn. rewrite !Z_of_byte_of_Z.
  change (2 ^ 8) with 256. change (2 ^ 16) with 65536. change (2 ^ 24) with 16777216.
  change (2 ^ 31) with 2147483648 in *. change (2 ^ 32) with 4294967296.
  Z.div_mod_to_equations. lia.
Qed.

Lemma boundsCheck_true b offset n :
  boundsCheck b offset n = true <-> 0 <= offset /\ 0 <= n /\ offset + n <= capacity b.
Proof. unfold boundsCheck. rewrite !andb_true_iff, !Z.leb_le. tauto. Qed.

Lemma boundsCheck_false b offset n :
  boundsCheck b offset n = false <-> offset < 0 \/ n < 0 \/ capacity b < offset + n.
Proof.
  rewrite <- not_true_iff_false, boundsCheck_true. lia.
Qed.

Lemma length_encode_int32 n : length (encode_int32 n) = 4%nat.
Proof. reflexivity. Qed.

Lemma length_encode s :
  Z.of_nat (length (encode s)) = LENGTH_PREFIX_SIZE + byteLength s.
Proof.
  unfold encode, byteLength, LENGTH_PREFIX_SIZE.
  rewrite length_app, length_encode_int32. lia.
Qed.

Lemma store_bytes_app bs1 : forall (m : memory) a bs2,
  store_bytes m a (bs1 ++ bs2) = store_bytes (store_bytes m a bs1) (a + Z.of_nat (length bs1)) bs2.
Proof.
  induction bs1 as [|b bs1 IH]; intros m a bs2; cbn [app store_bytes length].
  - by rewrite Z.add_0_r.
  - rewrite IH. f_equal. lia.
Qed.

(** What a successful put does. *)
Lemma putStringUtf8_Ok b offset s (m m' : memory) n :
  putStringUtf8 b offset s m = (Ok n, m') ->
  boundsCheck b offset (LENGTH_PREFIX_SIZE + byteLength s) = true /\
  n = LENGTH_PREFIX_SIZE + byteLength s /\
  m' = store_bytes m (ptr b + offset) (encode s).
Proof.
  unfold putStringUtf8. destruct (boundsCheck _ _ _) eqn:Hb; [|discriminate].
  intros [= <- <-]. split; [done|]. split; [done|].
  unfold encode. rewrite store_bytes_app, length_encode_int32.
  unfold LENGTH_PREFIX_SIZE. done.
Qed.

Lemma putStringUtf8_encoded_at b offset s (m m' : memory) n :
  putStringUtf8 b offset s m = (Ok n, m') -> encoded_at m' b offset s.
Proof.
  intros (_ & _ & ->)%putStringUtf8_Ok. unfold encoded_at.
  apply load_bytes_store_bytes.
Qed.

Lemma putStringUtf8_frame b offset s (m m' : memory) n x :
  putStringUtf8 b offset s m = (Ok n, m') ->
  x < ptr b + offset \/ ptr b + offset + n <= x ->
  load m' x = load m x.
Proof.
  intros (_ & -> & ->)%putStringUtf8_Ok Hx.
  apply load_store_bytes_outside. rewrite length_encode. lia.
Qed.

Lemma encoded_at_frame b offset s (m m' : memory) :
  (forall x, ptr b + offset <= x < ptr b + offset + (LENGTH_PREFIX_SIZE + byteLength s) ->
             load m' x = load m x) ->
  encoded_at m b offset s -> encoded_at m' b offset s.
Proof.
  unfold encoded_at. intros Hx Henc. etrans; [|exact Henc]. apply load_bytes_ext.
  intros x Hr. apply Hx. rewrite length_encode in Hr. lia.
Qed.

(** What get returns on storage that holds an encoded string. *)
Lemma getStringUtf8_encoded_at b offset s (m : memory) :
  wf b ->
  boundsCheck b offset (LENGTH_PREFIX_SIZE + byteLength s) = true ->
  encoded_at m b offset s ->
  valid_utf8 s = true ->
  getStringUtf8 b offset m = (Ok s, m).
Proof.
  unfold wf, INT_MAX. intros Hwf Hb Henc Hv.
  apply boundsCheck_true in Hb. destruct Hb as (Ho & Hn & Hc).
  assert (Hlen : 0 <= byteLength s) by (unfold byteLength; lia).
  unfold encoded_at, encode in Henc.
  rewrite length_app, load_bytes_app, length_encode_int32 in Henc.
  apply app_inj_1 in Henc; [|by rewrite length_load_bytes].
  destruct Henc as [Hpre Hpay].
  unfold getStringUtf8, LENGTH_PREFIX_SIZE in *.
  assert (boundsCheck b offset 4 = true) as -> by (apply boundsCheck_true; lia).
  rewrite Hpre, decode_encode_int32 by (unfold is_int, INT_MIN, INT_MAX; lia).
  assert (boundsCheck b (offset + 4) (byteLength s) = true) as ->
    by (apply boundsCheck_true; lia).
  replace (Z.to_nat (byteLength s)) with (length (utf8 s))
    by (unfold byteLength; lia).
  replace (ptr b + offset + 4) with (ptr b + offset + Z.of_nat 4) by lia.
  rewrite Hpay. unfold valid_utf8 in Hv. rewrite Hv.
  unfold utf8. by rewrite string_of_list_byte_of_string.
Qed.

Lemma getStringUtf8_putStringUtf8 b offset s (m m' : memory) n :
  wf b ->
  putStringUtf8 b offset s m = (Ok n, m') ->
  valid_utf8 s = true ->
  getStringUtf8 b offset m' = (Ok s, m').
Proof.
  intros Hwf Hput Hv.
  apply getStringUtf8_encoded_at; [done| |by eapply putStringUtf8_encoded_at|done].
  by apply putStringUtf8_Ok in Hput as (? & _).
Qed.

(** The string operations of a well-formed buffer form a codec. *)
Lemma atomic_buffer_codec b :
  wf b -> Flyweight.codec_correct getStringUtf8 putStringUtf8 valid_utf8 b.
Proof.
  intros Hwf a s m m' n Hput Hv.
  by rewrite (getStringUtf8_putStringUtf8 b a s m m' n).
Qed.

(** Get never writes. *)
Lemma getStringUtf8_pure b offset (m : memory) : snd (getStringUtf8 b offset m) = m.
Proof.
  unfold getStringUtf8.
  repeat match goal with |- context [if ?c then _ else _] => destruct c end; done.
Qed.
End BufferFacts.

(** ** Facts about the integer conversions *)

Section Arith.
Variable size_bits : Z.

Lemma size_add_to_size_t a n :
  size_add size_bits a (to_size_t size_bits n) = (a + n) mod 2 ^ size_bits.
Proof. unfold size_add, to_size_t. apply Zplus_mod_idemp_r. Qed.

Lemma pow_size_bits_ge : 32 <= size_bits -> 2 ^ 32 <= 2 ^ size_bits.
Proof. intros H. apply Z.pow_le_mono_r; lia. Qed.

Lemma to_size_t_nonneg n :
  32 <= size_bits -> is_int n -> 0 <= n -> to_size_t size_bits n = n.
Proof.
  unfold is_int, INT_MAX, to_size_t. intros Hw Hn H0.
  pose proof (pow_size_bits_ge Hw). apply Z.mod_small. lia.
Qed.

Lemma to_size_t_negative n :
  32 <= size_bits -> is_int n -> n < 0 ->
  to_size_t size_bits n = n + 2 ^ size_bits.
Proof.
  unfold is_int, INT_MIN, to_size_t. intros Hw Hn H0.
  pose proof (pow_size_bits_ge Hw).
  symmetry. apply Z.mod_unique with (q := -1); lia.
Qed.

Lemma to_size_t_range n : 0 <= size_bits -> is_size_t size_bits (to_size_t size_bits n).
Proof.
  intros Hw. unfold is_size_t, SIZE_MAX, to_size_t.
  pose proof (Z.mod_pos_bound n (2 ^ size_bits) ltac:(lia)). lia.
Qed.

Lemma size_add_range a c : 0 <= size_bits -> is_size_t size_bits (size_add size_bits a c).
Proof.
  intros Hw. unfold is_size_t, SIZE_MAX, size_add.
  pose proof (Z.mod_pos_bound (a + c) (2 ^ size_bits) ltac:(lia)). lia.
Qed.

Lemma size_add_small a c :
  0 <= a + c <= SIZE_MAX size_bits -> size_add size_bits a c = a + c.
Proof. unfold SIZE_MAX, size_add. intros H. apply Z.mod_small. lia. Qed.
End Arith.

Lemma to_int32_small z : is_int z -> to_int32 z = z.
Proof.
  unfold is_int, INT_MIN, INT_MAX, to_int32. intros H.
  rewrite Z.mod_small; lia.
Qed.

(** ** The class over an arbitrary collaborator *)

Module FlyweightFacts.
Section Generic.
Context {Buffer Mem Ref E : Type}.
Variable size_bits : Z.
Variable overlayStruct : Buffer -> Z -> M Mem E Ref.
Variable getStringUtf8 : Buffer -> Z -> M Mem E string.
Variable putStringUtf8 : Buffer -> Z -> string -> M Mem E Z.
Variable valid_utf8 : string -> bool.

Local Abbreviation view := (@Flyweight.t Buffer Ref).
Local Abbreviation new := (Flyweight.new overlayStruct).
Local Abbreviation stringGet := (Flyweight.stringGet size_bits getStringUtf8).
Local Abbreviation stringPut := (Flyweight.stringPut size_bits putStringUtf8).
Local Abbreviation run := (Flyweight.run size_bits getStringUtf8 putStringUtf8).
Local Abbreviation codec_correct :=
  (Flyweight.codec_correct getStringUtf8 putStringUtf8 valid_utf8).

(** The absolute offset [stringPut] hands to the collaborator. *)
Local Abbreviation put_offset this offset :=
  (size_add size_bits (Flyweight.m_baseOffset this) (to_size_t size_bits offset)).

Lemma new_unfold buffer offset m :
  new buffer offset m =
  match overlayStruct buffer offset m with
  | (Ok r, m') =>
      (Ok {| Flyweight.m_struct := r; Flyweight.m_buffer := buffer;
             Flyweight.m_baseOffset := offset |}, m')
  | (Fault e, m') => (Fault e, m')
  end.
Proof. reflexivity. Qed.

Lemma new_Ok buffer offset m (v : view) m' :
  new buffer offset m = (Ok v, m') ->
  overlayStruct buffer offset m = (Ok (Flyweight.m_struct v), m') /\
  Flyweight.m_buffer v = buffer /\ Flyweight.m_baseOffset v = offset.
Proof.
  rewrite new_unfold. destruct (overlayStruct buffer offset m) as [[r|e] m1].
  - intros [= <- <-]. done.
  - discriminate.
Qed.

Lemma stringPut_unfold (this : view) offset s m :
  stringPut this offset s m =
  match putStringUtf8 (Flyweight.m_buffer this) (put_offset this offset) s m with
  | (Ok k, m') => (Ok (to_int32 k), m')
  | (Fault e, m') => (Fault e, m')
  end.
Proof. reflexivity. Qed.

Lemma stringPut_Ok (this : view) offset s m n m' :
  stringPut this offset s m = (Ok n, m') ->
  exists k,
    putStringUtf8 (Flyweight.m_buffer this) (put_offset this offset) s m = (Ok k, m')
    /\ n = to_int32 k.
Proof.
  rewrite stringPut_unfold.
  destruct (putStringUtf8 _ _ _ _) as [[k|e] m1]; [|discriminate].
  intros [= <- <-]. by exists k.
Qed.

Lemma stringPut_Fault (this : view) offset s m e m' :
  stringPut this offset s m = (Fault e, m') <->
  putStringUtf8 (Flyweight.m_buffer this) (put_offset this offset) s m = (Fault e, m').
Proof.
  rewrite stringPut_unfold.
  destruct (putStringUtf8 _ _ _ _) as [[k|e1] m1]; split; congruence.
Qed.


(** A put through one view is read back through any view with the same
    handle and base. *)
Lemma get_after_put (v1 v2 : view) offset s m n m' :
  Flyweight.m_buffer v2 = Flyweight.m_buffer v1 ->
  Flyweight.m_baseOffset v2 = Flyweight.m_baseOffset v1 ->
  codec_correct (Flyweight.m_buffer v1) ->
  valid_utf8 s = true ->
  stringPut v1 offset s m = (Ok n, m') ->
  fst (stringGet v2 (to_size_t size_bits offset) m') = Ok s.
Proof.
  intros Hb Ho Hcodec Hs (k & Hput & _)%stringPut_Ok.
  unfold Flyweight.stringGet. rewrite Hb, Ho. by eapply Hcodec.
Qed.

(** What the body of [stringGet] does to the object and the memory: it
    yields what [stringGet] yields, and assigns no data member. *)
Lemma stringGet_member_spec offset (this : view) m :
  Flyweight.stringGet_member size_bits getStringUtf8 offset this m
  = ((stringGet this offset m).1, this, (stringGet this offset m).2).
Proof.
  unfold Flyweight.stringGet_member, Flyweight.method_bind, Flyweight.member,
    Flyweight.on_buffer, Flyweight.stringGet.
  by destruct (getStringUtf8 _ _ m) as [r m'].
Qed.

(** The same of the body of [stringPut]. *)
Lemma stringPut_member_spec offset s (this : view) m :
  Flyweight.stringPut_member size_bits putStringUtf8 offset s this m
  = ((stringPut this offset s m).1, this, (stringPut this offset s m).2).
Proof.
  unfold Flyweight.stringPut_member, Flyweight.method_bind, Flyweight.member,
    Flyweight.on_buffer. rewrite stringPut_unfold.
  by destruct (putStringUtf8 _ _ s m) as [[k|e] m'].
Qed.

(** A member function that assigns data members leaves the changed object
    to what runs after it: the accessors are not stateless by the way calls
    are run, but by what their bodies do. *)
Lemma stringGet_after_assign (f : view -> view) offset (this : view) m :
  Flyweight.method_bind (Flyweight.assign f)
    (fun _ => Flyweight.stringGet_member size_bits getStringUtf8 offset) this m
  = ((stringGet (f this) offset m).1, f this, (stringGet (f this) offset m).2).
Proof.
  unfold Flyweight.method_bind, Flyweight.assign.
  by rewrite stringGet_member_spec.
Qed.

Lemma invoke_unfold c (this : view) m :
  Flyweight.invoke size_bits getStringUtf8 putStringUtf8 c this m
  = match c with
    | Flyweight.CallGet offset =>
        (Flyweight.Got (stringGet this offset m).1, this, (stringGet this offset m).2)
    | Flyweight.CallPut offset s =>
        (Flyweight.Written (stringPut this offset s m).1, this,
         (stringPut this offset s m).2)
    end.
Proof.
  destruct c as [offset|offset s]; unfold Flyweight.invoke.
  - by rewrite stringGet_member_spec.
  - by rewrite stringPut_member_spec.
Qed.

Lemma invoke_receiver c (this : view) m :
  (Flyweight.invoke size_bits getStringUtf8 putStringUtf8 c this m).1.2 = this.
Proof. rewrite invoke_unfold. by destruct c. Qed.

Lemma run_receiver cs : forall (this : view) m, (run cs this m).1.2 = this.
Proof.
  induction cs as [|c cs IH]; intros this m; simpl; [done|].
  pose proof (invoke_receiver c this m) as Hc.
  destruct (Flyweight.invoke _ _ _ c this m) as [[o this'] m1]. simpl in Hc. subst this'.
  specialize (IH this m1). destruct (run cs this m1) as [[os this''] m2]. done.
Qed.
(** The accessors look at nothing of a view but its handle and its base. *)
Lemma stringGet_same_binding (v1 v2 : view) offset m :
  Flyweight.m_buffer v2 = Flyweight.m_buffer v1 ->
  Flyweight.m_baseOffset v2 = Flyweight.m_baseOffset v1 ->
  stringGet v2 offset m = stringGet v1 offset m.
Proof. intros Hb Ho. unfold Flyweight.stringGet. by rewrite Hb, Ho. Qed.

Lemma stringPut_same_binding (v1 v2 : view) offset s m :
  Flyweight.m_buffer v2 = Flyweight.m_buffer v1 ->
  Flyweight.m_baseOffset v2 = Flyweight.m_baseOffset v1 ->
  stringPut v2 offset s m = stringPut v1 offset s m.
Proof. intros Hb Ho. unfold Flyweight.stringPut. by rewrite Hb, Ho. Qed.

(** Calls spread over two views bound alike are the calls made on one. *)
Lemma run2_same_binding (v1 v2 : view) cs : forall m,
  Flyweight.m_buffer v2 = Flyweight.m_buffer v1 ->
  Flyweight.m_baseOffset v2 = Flyweight.m_baseOffset v1 ->
  Flyweight.run2 size_bits getStringUtf8 putStringUtf8 cs v1 v2 m
  = ((run (List.map snd cs) v1 m).1.1, (v1, v2), (run (List.map snd cs) v1 m).2).
Proof.
  intros m Hb Ho. revert m.
  induction cs as [|[[|] c] cs IH]; intros m; [done| |].
  - cbn [Flyweight.run2 Flyweight.run List.map snd]. rewrite invoke_unfold.
    destruct c as [offset|offset s]; rewrite IH;
      by destruct (run (List.map snd cs) v1 _) as [[os this'] m''].
  - cbn [Flyweight.run2 Flyweight.run List.map snd]. rewrite !invoke_unfold.
    destruct c as [offset|offset s];
      rewrite ?(stringGet_same_binding v1 v2), ?(stringPut_same_binding v1 v2),
        IH by done;
      by destruct (run (List.map snd cs) v1 _) as [[os this'] m''].
Qed.
End Generic.
End FlyweightFacts.

(** ** The class over the atomic buffer *)

Module ViewFacts.
Import AtomicBuffer BufferFacts FlyweightFacts.
Section ViewFacts.
Variable size_bits : Z.
Variable sizeof_struct : Z.

Local Abbreviation put_offset this offset :=
  (size_add size_bits (Flyweight.m_baseOffset this) (to_size_t size_bits offset)).

Lemma view_new_Ok b base (m : memory) (v : View.t) m' :
  View.new sizeof_struct b base m = (Ok v, m') ->
  m' = m /\
  v = {| Flyweight.m_struct := {| ref_addr := ptr b + base; ref_size := sizeof_struct |};
         Flyweight.m_buffer := b; Flyweight.m_baseOffset := base |} /\
  0 <= base /\ 0 <= sizeof_struct /\ base + sizeof_struct <= capacity b.
Proof.
  unfold View.new. rewrite new_unfold. unfold overlayStruct.
  destruct (boundsCheck b base sizeof_struct) eqn:Hb; [|discriminate].
  intros [= <- <-]. apply boundsCheck_true in Hb. done.
Qed.

Lemma view_stringPut_Ok (v : View.t) offset s (m : memory) n m' :
  wf (Flyweight.m_buffer v) ->
  View.stringPut size_bits v offset s m = (Ok n, m') ->
  putStringUtf8 (Flyweight.m_buffer v) (put_offset v offset) s m = (Ok n, m') /\
  n = LENGTH_PREFIX_SIZE + byteLength s /\
  0 <= put_offset v offset /\
  put_offset v offset + n <= capacity (Flyweight.m_buffer v).
Proof.
  intros Hwf (k & Hput & ->)%stringPut_Ok.
  pose proof Hput as (Hb & -> & _)%putStringUtf8_Ok.
  apply boundsCheck_true in Hb. unfold wf, INT_MAX in Hwf.
  rewrite to_int32_small by (unfold is_int, INT_MIN, INT_MAX; lia).
  repeat split; try done; lia.
Qed.

(** On a view bound within a well-formed buffer, a put that succeeds was
    addressed without wrap-around. *)
Lemma put_offset_exact (v : View.t) offset :
  32 <= size_bits ->
  wf (Flyweight.m_buffer v) ->
  0 <= Flyweight.m_baseOffset v <= capacity (Flyweight.m_buffer v) ->
  is_int offset ->
  put_offset v offset <= capacity (Flyweight.m_buffer v) ->
  put_offset v offset = Flyweight.m_baseOffset v + offset.
Proof.
  unfold wf, is_int, INT_MIN, INT_MAX. intros Hw Hwf Hbase Ho.
  rewrite size_add_to_size_t. pose proof (pow_size_bits_ge size_bits Hw) as Hp.
  set (base := Flyweight.m_baseOffset v) in *.
  destruct (Z_lt_le_dec (base + offset) 0) as [Hneg|Hpos]; intros Hle.
  - exfalso. revert Hle.
    rewrite <- (Z.mod_unique (base + offset) (2 ^ size_bits) (-1)
                  (base + offset + 2 ^ size_bits)); lia.
  - apply Z.mod_small. lia.
Qed.

(** Two fields packed back to back, read in the order they were written. *)
Lemma chained_fields (v : View.t) o A B (m : memory) nA m1 nB m2 :
  32 <= size_bits ->
  wf (Flyweight.m_buffer v) ->
  0 <= Flyweight.m_baseOffset v <= capacity (Flyweight.m_buffer v) ->
  is_int o ->
  valid_utf8 A = true -> valid_utf8 B = true ->
  View.stringPut size_bits v o A m = (Ok nA, m1) ->
  View.stringPut size_bits v (o + nA) B m1 = (Ok nB, m2) ->
  is_int (o + nA) /\
  View.stringGet size_bits v (to_size_t size_bits o) m2 = (Ok A, m2) /\
  View.stringGet size_bits v (to_size_t size_bits (o + nA)) m2 = (Ok B, m2).
Proof.
  intros Hw Hwf Hbase Ho HA HB HputA HputB.
  apply view_stringPut_Ok in HputA as (HpA & HnA & HaA0 & HaA); [|done].
  pose proof (put_offset_exact v o Hw Hwf Hbase Ho) as HexA.
  assert (HlenA : 0 <= byteLength A) by (unfold byteLength; lia).
  unfold LENGTH_PREFIX_SIZE in *.
  specialize (HexA ltac:(lia)).
  assert (HoA : is_int (o + nA)).
  { unfold wf, is_int, INT_MIN, INT_MAX in *. lia. }
  split; [done|].
  apply view_stringPut_Ok in HputB as (HpB & HnB & HaB0 & HaB); [|done].
  assert (HleB : put_offset v (o + nA) <= capacity (Flyweight.m_buffer v))
    by (unfold byteLength, LENGTH_PREFIX_SIZE in *; lia).
  pose proof (put_offset_exact v (o + nA) Hw Hwf Hbase HoA HleB) as HexB.
  unfold View.stringGet, Flyweight.stringGet.
  split.
  - apply getStringUtf8_encoded_at; [done| | |done].
    + by apply putStringUtf8_Ok in HpA as (? & _).
    + eapply encoded_at_frame; [|by eapply putStringUtf8_encoded_at].
      intros x Hx. eapply putStringUtf8_frame; [exact HpB|].
      left. unfold LENGTH_PREFIX_SIZE in *. lia.
  - by eapply getStringUtf8_putStringUtf8.
Qed.
End ViewFacts.
End ViewFacts.

(** * Properties of the class, for any buffer collaborator *)

Section AnyBuffer.
Import FlyweightFacts.
Context {Buffer Mem Ref E : Type}.
Variable size_bits : Z.
Variable overlayStruct : Buffer -> Z -> M Mem E Ref.
Variable getStringUtf8 : Buffer -> Z -> M Mem E string.
Variable putStringUtf8 : Buffer -> Z -> string -> M Mem E Z.
Variable valid_utf8 : string -> bool.

Local Abbreviation view := (@Flyweight.t Buffer Ref).
Local Abbreviation new := (Flyweight.new overlayStruct).
Local Abbreviation stringGet := (Flyweight.stringGet size_bits getStringUtf8).
Local Abbreviation stringPut := (Flyweight.stringPut size_bits putStringUtf8).
Local Abbreviation run := (Flyweight.run size_bits getStringUtf8 putStringUtf8).
Local Abbreviation run2 := (Flyweight.run2 size_bits getStringUtf8 putStringUtf8).
Local Abbreviation codec_correct :=
  (Flyweight.codec_correct getStringUtf8 putStringUtf8 valid_utf8).

(** C1 (round trip). Let the buffer's [putStringUtf8]/[getStringUtf8] pair
    be a correct codec on the view's handle. For every string [s] that is
    valid UTF-8 and every relative offset [off] (an [int], as [stringPut]
    takes it): once [stringPut(off, s)] has returned on a view,
    [stringGet(off)] on the same view returns exactly [s]. The offset
    reaches [stringGet] through its [size_t] parameter, and the conversion
    leaves a non-negative [off] as it is. *)
Theorem stringGet_after_stringPut (this : view) (off : Z) (s : string)
    (m m' : Mem) (n : Z) :
  codec_correct (Flyweight.m_buffer this) ->
  is_int off ->
  valid_utf8 s = true ->
  stringPut this off s m = (Ok n, m') ->
  fst (stringGet this (to_size_t size_bits off) m') = Ok s /\
  (32 <= size_bits -> 0 <= off -> fst (stringGet this off m') = Ok s).
Proof.
  intros Hcodec Hoff Hs Hput.
  assert (Hget : fst (stringGet this (to_size_t size_bits off) m') = Ok s)
    by (by eapply get_after_put).
  split; [done|]. intros Hw H0. by rewrite to_size_t_nonneg in Hget.
Qed.

(** C7 (aliasing). Take a view constructed on a (buffer, offset) pair, a
    second one constructed on the same pair (for any record type: its overlay
    may be another), and a third constructed on the handle the first one
    holds, its by-value copy. Calls made on two of them in any order yield,
    call by call, what the same calls yield when all are made on the first
    view, and leave the same memory and the views as they were: a
    [stringPut] through one is what the next [stringGet] through the other
    reads, and no view holds anything back. In particular a valid string put
    through the first, the buffer's pair being a codec, is what a get at
    the same relative offset returns through each of the others. *)
Theorem views_alias_storage (overlayStruct' : Buffer -> Z -> M Mem E Ref)
    (buffer : Buffer) (offset : Z)
    (v1 v2 v3 : view) (m1 m1' m2 m2' m3 m3' : Mem) :
  new buffer offset m1 = (Ok v1, m1') ->
  Flyweight.new overlayStruct' buffer offset m2 = (Ok v2, m2') ->
  new (Flyweight.m_buffer v1) offset m3 = (Ok v3, m3') ->
  (forall (cs : list (Flyweight.receiver * Flyweight.call)) (m : Mem),
      run2 cs v1 v2 m
        = ((run (List.map snd cs) v1 m).1.1, (v1, v2), (run (List.map snd cs) v1 m).2) /\
      run2 cs v1 v3 m
        = ((run (List.map snd cs) v1 m).1.1, (v1, v3), (run (List.map snd cs) v1 m).2)) /\
  (forall (off : Z) (s : string) (off' : Z) (m : Mem),
      stringGet v2 off' (stringPut v1 off s m).2
        = stringGet v1 off' (stringPut v1 off s m).2 /\
      stringGet v3 off' (stringPut v1 off s m).2
        = stringGet v1 off' (stringPut v1 off s m).2) /\
  (forall (off : Z) (s : string) (m m' : Mem) (n : Z),
      codec_correct buffer ->
      is_int off ->
      valid_utf8 s = true ->
      stringPut v1 off s m = (Ok n, m') ->
      fst (stringGet v2 (to_size_t size_bits off) m') = Ok s /\
      fst (stringGet v3 (to_size_t size_bits off) m') = Ok s).
Proof.
  intros (_ & Hb1 & Ho1)%new_Ok (_ & Hb2 & Ho2)%new_Ok (_ & Hb3 & Ho3)%new_Ok.
  assert (H12 : Flyweight.m_buffer v2 = Flyweight.m_buffer v1
                /\ Flyweight.m_baseOffset v2 = Flyweight.m_baseOffset v1)
    by (split; congruence).
  assert (H13 : Flyweight.m_buffer v3 = Flyweight.m_buffer v1
                /\ Flyweight.m_baseOffset v3 = Flyweight.m_baseOffset v1)
    by (split; congruence).
  split; [|split].
  - intros cs m. split; apply run2_same_binding; tauto.
  - intros off s off' m. split; apply stringGet_same_binding; tauto.
  - intros off s m m' n Hcodec Hoff Hs Hput. rewrite <- Hb1 in Hcodec.
    split; eapply get_after_put;
      [| |exact Hcodec|exact Hs|exact Hput| | |exact Hcodec|exact Hs|exact Hput];
      tauto.
Qed.

(** C9 (statelessness). The bodies of [stringGet] and [stringPut] assign
    no data member: each leaves the view it runs on as it found it, whether
    it returns or throws. So whatever sequence of calls is made on a
    constructed view, each on the view the previous one left, the view is
    afterwards exactly what construction made it: the same handle, base
    offset and typed reference. The (buffer, offset) pair still determines
    it: constructing again, wherever the overlay yields the same reference,
    gives the same view. *)
Theorem view_is_stateless (buffer : Buffer) (offset : Z) (v : view)
    (m0 m0' : Mem) (cs : list Flyweight.call) (m : Mem) :
  new buffer offset m0 = (Ok v, m0') ->
  let v' := (run cs v m).1.2 in
  v' = v /\
  Flyweight.m_buffer v' = buffer /\
  Flyweight.m_baseOffset v' = offset /\
  Flyweight.m_struct v' = Flyweight.m_struct v /\
  (forall m1 m1',
    overlayStruct buffer offset m1 = (Ok (Flyweight.m_struct v), m1') ->
    new buffer offset m1 = (Ok v', m1')) /\
  (forall (off : Z) (this : view) (m1 : Mem),
    (Flyweight.stringGet_member size_bits getStringUtf8 off this m1).1.2 = this) /\
  (forall (off : Z) (s : string) (this : view) (m1 : Mem),
    (Flyweight.stringPut_member size_bits putStringUtf8 off s this m1).1.2 = this).
Proof.
  intros Hnew v'. subst v'. rewrite run_receiver.
  apply new_Ok in Hnew as (Hov & Hb & Ho).
  split; [done|]. split; [done|]. split; [done|]. split; [done|].
  split; [|split].
  - intros m1 m1' Hov1. rewrite new_unfold, Hov1.
    destruct v as [r b o]. simpl in *. by subst.
  - intros off this m1. by rewrite stringGet_member_spec.
  - intros off s this m1. by rewrite stringPut_member_spec.
Qed.

(** C10 (offset types). [stringGet] takes its relative offset as a [size_t],
    which is never negative, and adds it to the base in [size_t]. [stringPut]
    takes an [int]: a negative [n] is first converted to [size_t], that is to
    [n + 2^w], and the absolute offset handed to the buffer is
    [base_offset + n] modulo [2^w], a [size_t] value: the call is neither
    rejected by this layer nor made with a negative offset. *)
Theorem stringPut_negative_offset_wraps (this : view) (n : Z) (s : string)
    (m : Mem) :
  32 <= size_bits ->
  is_size_t size_bits (Flyweight.m_baseOffset this) ->
  is_int n ->
  n < 0 ->
  let base := Flyweight.m_baseOffset this in
  let a := (base + n) mod 2 ^ size_bits in
  to_size_t size_bits n = n + 2 ^ size_bits /\
  size_add size_bits base (to_size_t size_bits n) = a /\
  a = (if 0 <=? base + n then base + n else base + n + 2 ^ size_bits) /\
  is_size_t size_bits a /\
  stringPut this n s m =
    (let* k := putStringUtf8 (Flyweight.m_buffer this) a s in ret (to_int32 k)) m /\
  forall off, is_size_t size_bits off ->
    0 <= off /\
    stringGet this off m =
      getStringUtf8 (Flyweight.m_buffer this) ((base + off) mod 2 ^ size_bits) m.
Proof.
  intros Hw Hbase Hn Hneg base a.
  pose proof (pow_size_bits_ge size_bits Hw) as Hp.
  assert (Ha : size_add size_bits base (to_size_t size_bits n) = a)
    by apply size_add_to_size_t.
  split; [by apply to_size_t_negative|].
  split; [done|].
  split.
  { subst a. unfold is_size_t, SIZE_MAX, is_int, INT_MIN in *. fold base in Hbase.
    destruct (Z.leb_spec 0 (base + n)).
    - apply Z.mod_small. lia.
    - symmetry. apply Z.mod_unique with (q := -1); lia. }
  split; [rewrite <- Ha; apply size_add_range; lia|].
  split.
  { unfold Flyweight.stringPut. fold base. by rewrite Ha. }
  intros off Hoff. split; [apply Hoff|done].
Qed.
End AnyBuffer.

(** * Where the contracts stop *)

Module LimitFacts.
Import AtomicBuffer BufferFacts FlyweightFacts ViewFacts.

(** The length field of an encoded string, as the storage holds it. *)
Lemma encoded_at_prefix b offset s (m : memory) :
  encoded_at m b offset s ->
  load_bytes m (ptr b + offset) 4 = encode_int32 (byteLength s).
Proof.
  unfold encoded_at, encode.
  rewrite length_app, load_bytes_app, length_encode_int32.
  intros Henc. apply app_inj_1 in Henc; [|by rewrite length_load_bytes].
  by destruct Henc.
Qed.

(** What get returns on storage that holds an encoded string whose length
    the length field can express. *)
Lemma getStringUtf8_encoded_at_fits b offset s (m : memory) :
  byteLength s <= INT_MAX ->
  boundsCheck b offset (LENGTH_PREFIX_SIZE + byteLength s) = true ->
  encoded_at m b offset s ->
  valid_utf8 s = true ->
  getStringUtf8 b offset m = (Ok s, m).
Proof.
  unfold INT_MAX. intros Hfit Hb Henc Hv.
  apply boundsCheck_true in Hb. destruct Hb as (Ho & Hn & Hc).
  assert (Hlen : 0 <= byteLength s) by (unfold byteLength; lia).
  pose proof (encoded_at_prefix _ _ _ _ Henc) as Hpre.
  unfold encoded_at, encode in Henc.
  rewrite length_app, load_bytes_app, length_encode_int32 in Henc.
  apply app_inj_1 in Henc; [|by rewrite length_load_bytes].
  destruct Henc as [_ Hpay].
  unfold getStringUtf8, LENGTH_PREFIX_SIZE in *.
  assert (boundsCheck b offset 4 = true) as -> by (apply boundsCheck_true; lia).
  rewrite Hpre, decode_encode_int32 by (unfold is_int, INT_MIN, INT_MAX; lia).
  assert (boundsCheck b (offset + 4) (byteLength s) = true) as ->
    by (apply boundsCheck_true; lia).
  replace (Z.to_nat (byteLength s)) with (length (utf8 s))
    by (unfold byteLength; lia).
  replace (ptr b + offset + 4) with (ptr b + offset + Z.of_nat 4) by lia.
  rewrite Hpay. unfold valid_utf8 in Hv. rewrite Hv.
  unfold utf8. by rewrite string_of_list_byte_of_string.
Qed.

(** What a [stringPut] that returns has done, on any buffer. *)
Lemma view_stringPut_Ok_any size_bits (v : View.t) offset s (m : memory) n m' :
  View.stringPut size_bits v offset s m = (Ok n, m') ->
  putStringUtf8 (Flyweight.m_buffer v)
    ((Flyweight.m_baseOffset v + offset) mod 2 ^ size_bits) s m
  = (Ok (LENGTH_PREFIX_SIZE + byteLength s), m') /\
  n = to_int32 (LENGTH_PREFIX_SIZE + byteLength s).
Proof.
  intros (k & Hput & ->)%stringPut_Ok.
  rewrite size_add_to_size_t in Hput.
  pose proof Hput as (_ & -> & _)%putStringUtf8_Ok. done.
Qed.

(** The string of [2^31] zero bytes. *)
Lemma byteLength_payload : byteLength Huge.payload = 2 ^ 31.
Proof.
  unfold byteLength, utf8, Huge.payload.
  rewrite list_byte_of_string_of_list_byte, List.repeat_length.
  apply Z2Nat.id. apply Z.pow_nonneg. lia.
Qed.

(** Putting it at relative offset 8 of the 8 GiB buffer succeeds. *)
Lemma put_payload (m : memory) :
  exists m1,
    putStringUtf8 Huge.buffer 8 Huge.payload m = (Ok (2 ^ 31 + 4), m1) /\
    encoded_at m1 Huge.buffer 8 Huge.payload.
Proof.
  assert (Hb : boundsCheck Huge.buffer 8 (LENGTH_PREFIX_SIZE + 2 ^ 31) = true)
    by (vm_compute; reflexivity).
  assert (Hput : exists m1,
             putStringUtf8 Huge.buffer 8 Huge.payload m = (Ok (2 ^ 31 + 4), m1)).
  { unfold putStringUtf8. rewrite byteLength_payload, Hb.
    eexists. f_equal. }
  destruct Hput as [m1 Hput]. exists m1. split; [done|].
  by eapply putStringUtf8_encoded_at.
Qed.

Lemma stringPut_payload (m : memory) :
  exists m1,
    View.stringPut Huge.size_bits Huge.view 8 Huge.payload m = (Ok (4 - 2 ^ 31), m1) /\
    encoded_at m1 Huge.buffer 8 Huge.payload.
Proof.
  destruct (put_payload m) as (m1 & Hput & Henc). exists m1. split; [|done].
  unfold View.stringPut. rewrite stringPut_unfold.
  assert (Ha : size_add Huge.size_bits (Flyweight.m_baseOffset Huge.view)
                 (to_size_t Huge.size_bits 8) = 8) by (vm_compute; reflexivity).
  rewrite Ha.
  change (Flyweight.m_buffer Huge.view) with Huge.buffer.
  rewrite Hput. f_equal.
Qed.
End LimitFacts.

(** * Properties of the class over the atomic buffer *)

Section OverAtomicBuffer.
Import AtomicBuffer BufferFacts FlyweightFacts ViewFacts LimitFacts.
Variable size_bits : Z.
Variable sizeof_struct : Z.

(** C2 (size contract), amended. A [stringPut(off, s)] that returns has
    delegated the write to the buffer's length-prefixed encode at the
    absolute offset [base_offset + off] (in [size_t] arithmetic). The buffer
    has written [lengthPrefixSize + byteLength(utf8(s))] bytes: exactly that
    many bytes of the storage, from that offset on, now hold the length field
    followed by the payload, and every other byte is as it was. What
    [stringPut] returns is that number converted to [std::int32_t]: the
    number itself whenever it is at most [INT_MAX], as it is on every buffer
    whose capacity is at most [INT_MAX]. *)
Theorem stringPut_size_contract (this : View.t) (off : Z) (s : string)
    (m m' : memory) (n : Z) :
  is_int off ->
  View.stringPut size_bits this off s m = (Ok n, m') ->
  let b := Flyweight.m_buffer this in
  let a := (Flyweight.m_baseOffset this + off) mod 2 ^ size_bits in
  let total := LENGTH_PREFIX_SIZE + byteLength s in
  putStringUtf8 b a s m = (Ok total, m') /\
  n = to_int32 total /\
  (total <= INT_MAX -> n = total) /\
  (wf b -> n = total) /\
  load_bytes m' (ptr b + a) (Z.to_nat total) = encode_int32 (byteLength s) ++ utf8 s /\
  (forall x, x < ptr b + a \/ ptr b + a + total <= x -> load m' x = load m x) /\
  (0 <= Flyweight.m_baseOffset this + off <= SIZE_MAX size_bits ->
   a = Flyweight.m_baseOffset this + off).
Proof.
  intros _ Hput b a total.
  apply view_stringPut_Ok_any in Hput as (Hp & Hn). fold a b total in Hp, Hn.
  assert (Hlen : 0 <= byteLength s) by (unfold byteLength; lia).
  assert (Hfit : total <= INT_MAX -> n = total).
  { intros Hle. rewrite Hn. apply to_int32_small.
    unfold is_int, INT_MIN, INT_MAX, total, LENGTH_PREFIX_SIZE in *. lia. }
  split; [done|]. split; [done|]. split; [done|]. split; [|split; [|split]].
  - intros Hwf. apply Hfit.
    pose proof Hp as (Hb & _)%putStringUtf8_Ok. apply boundsCheck_true in Hb.
    unfold wf in Hwf. fold total in Hb. lia.
  - pose proof (putStringUtf8_encoded_at _ _ _ _ _ _ Hp) as Henc.
    unfold encoded_at in Henc. etrans; [|exact Henc].
    f_equal. unfold total. rewrite <- length_encode. by rewrite Nat2Z.id.
  - intros x Hx. by eapply putStringUtf8_frame.
  - intros Hr. subst a. apply Z.mod_small. unfold SIZE_MAX in Hr. lia.
Qed.


(** C4 (pure read), amended. [stringGet(off)] is the buffer's
    length-prefixed decode at the absolute offset [base_offset + off] (in
    [size_t] arithmetic): it leaves the storage as it found it, and its body
    leaves the view it runs on as it was. Where the storage holds, within the
    capacity, what a length-prefixed encoder leaves for a string [s] that is
    valid UTF-8 and of at most [INT_MAX] bytes, in particular once such an
    [s] was put at that absolute offset, it returns exactly [s]. *)
Theorem stringGet_pure_read (this : View.t) (off : Z) (m : memory) :
  let b := Flyweight.m_buffer this in
  let a := (Flyweight.m_baseOffset this + off) mod 2 ^ size_bits in
  View.stringGet size_bits this off m = getStringUtf8 b a m /\
  snd (View.stringGet size_bits this off m) = m /\
  Flyweight.stringGet_member size_bits getStringUtf8 off this m
    = ((View.stringGet size_bits this off m).1, this, m) /\
  (forall s,
     byteLength s <= INT_MAX ->
     0 <= a /\ a + (LENGTH_PREFIX_SIZE + byteLength s) <= capacity b ->
     encoded_at m b a s ->
     valid_utf8 s = true ->
     View.stringGet size_bits this off m = (Ok s, m)) /\
  (forall s m0 n,
     byteLength s <= INT_MAX ->
     valid_utf8 s = true ->
     putStringUtf8 b a s m0 = (Ok n, m) ->
     View.stringGet size_bits this off m = (Ok s, m)).
Proof.
  intros b a.
  assert (Hdel : View.stringGet size_bits this off m = getStringUtf8 b a m)
    by reflexivity.
  assert (Hpure : snd (View.stringGet size_bits this off m) = m)
    by (rewrite Hdel; apply getStringUtf8_pure).
  split; [done|]. split; [done|]. split.
  { rewrite stringGet_member_spec. f_equal. exact Hpure. }
  split.
  - intros s Hfit [Ha Hc] Henc Hs. rewrite Hdel.
    apply getStringUtf8_encoded_at_fits; try done.
    apply boundsCheck_true. unfold LENGTH_PREFIX_SIZE, byteLength in *. lia.
  - intros s m0 n Hfit Hs Hput. rewrite Hdel.
    apply getStringUtf8_encoded_at_fits; try done.
    + by apply putStringUtf8_Ok in Hput as (? & _).
    + by eapply putStringUtf8_encoded_at.
Qed.

(** C6 (the worked scenario). On a 64-byte buffer with an 8-byte fixed
    record and a view at offset 0: putting ["abc"] at relative offset 8
    returns 7, putting [""] at relative offset 15 returns 4, and then
    reading at 8 returns ["abc"] and reading at 15 returns [""]. *)
Theorem scenario_name_and_tag (p : Z) (m : memory) :
  32 <= size_bits ->
  let b := {| ptr := p; capacity := 64 |} in
  exists (v : View.t) (m1 m2 : memory),
    View.new 8 b 0 m = (Ok v, m) /\
    View.stringPut size_bits v 8 "abc" m = (Ok 7, m1) /\
    View.stringPut size_bits v 15 "" m1 = (Ok 4, m2) /\
    View.stringGet size_bits v 8 m2 = (Ok "abc"%string, m2) /\
    View.stringGet size_bits v 15 m2 = (Ok ""%string, m2).
Proof.
  intros Hw b.
  pose proof (pow_size_bits_ge size_bits Hw) as Hp.
  assert (H8 : to_size_t size_bits 8 = 8)
    by (apply to_size_t_nonneg; [done|unfold is_int, INT_MIN, INT_MAX; lia|lia]).
  assert (H15 : to_size_t size_bits 15 = 15)
    by (apply to_size_t_nonneg; [done|unfold is_int, INT_MIN, INT_MAX; lia|lia]).
  assert (Hwf : wf b) by (unfold wf, INT_MAX; simpl; lia).
  set (v0 := {| Flyweight.m_struct := {| ref_addr := ptr b + 0; ref_size := 8 |};
                Flyweight.m_buffer := b; Flyweight.m_baseOffset := 0 |} : View.t).
  assert (Hput : forall off s m', 0 <= off <= 64 ->
            View.stringPut size_bits v0 off s m'
            = (let* k := putStringUtf8 b off s in ret (to_int32 k)) m').
  { intros off s m' Hoff. unfold View.stringPut, Flyweight.stringPut.
    rewrite size_add_to_size_t. cbn [Flyweight.m_baseOffset Flyweight.m_buffer v0].
    rewrite Z.mod_small by lia. reflexivity. }
  assert (Hput1 : View.stringPut size_bits v0 8 "abc" m
                  = (Ok 7, (putStringUtf8 b 8 "abc" m).2))
    by (rewrite Hput by lia; reflexivity).
  set (m1 := (putStringUtf8 b 8 "abc" m).2) in *.
  assert (Hput2 : View.stringPut size_bits v0 15 "" m1
                  = (Ok 4, (putStringUtf8 b 15 "" m1).2))
    by (rewrite Hput by lia; reflexivity).
  set (m2 := (putStringUtf8 b 15 "" m1).2) in *.
  exists v0, m1, m2.
  split; [reflexivity|]. split; [exact Hput1|]. split; [exact Hput2|].
  assert (His : is_int 8) by (unfold is_int, INT_MIN, INT_MAX; lia).
  assert (Hbase : 0 <= Flyweight.m_baseOffset v0 <= capacity (Flyweight.m_buffer v0))
    by (simpl; lia).
  destruct (chained_fields size_bits v0 8 "abc" "" m 7 m1 4 m2 Hw Hwf Hbase His
              eq_refl eq_refl Hput1 Hput2) as (_ & HgetA & HgetB).
  change (8 + 7) with 15 in HgetB. rewrite H8 in HgetA. rewrite H15 in HgetB.
  done.
Qed.
End OverAtomicBuffer.

(** * Construction and faults *)

Section ConstructionAndFaults.
Import AtomicBuffer BufferFacts FlyweightFacts ViewFacts.

(** C5 (construction). For any buffer collaborator, the constructor is the
    buffer's overlay and nothing more: it succeeds exactly when the overlay
    does, stores the reference the overlay yields together with the handle
    and the offset, leaves the memory as the overlay left it, and raises
    what the overlay raised; it checks no bound of its own. Over the atomic
    buffer: when [offset + sizeof(struct_t)] is within the capacity, the view
    refers to the bytes at [offset] in place and no byte of the storage is
    touched; when it is not, it is the buffer's overlay that reports the
    violation. *)
Theorem construct_is_overlay :
  (forall (Buffer Mem Ref E : Type)
          (overlayStruct : Buffer -> Z -> M Mem E Ref)
          (buffer : Buffer) (offset : Z) (m : Mem),
      Flyweight.new overlayStruct buffer offset m =
      match overlayStruct buffer offset m with
      | (Ok r, m') =>
          (Ok {| Flyweight.m_struct := r; Flyweight.m_buffer := buffer;
                 Flyweight.m_baseOffset := offset |}, m')
      | (Fault e, m') => (Fault e, m')
      end) /\
  (forall (sizeof_struct : Z) (b : t) (offset : Z) (m : memory),
      (0 <= offset /\ 0 <= sizeof_struct /\ offset + sizeof_struct <= capacity b ->
       View.new sizeof_struct b offset m =
       (Ok {| Flyweight.m_struct :=
                {| ref_addr := ptr b + offset; ref_size := sizeof_struct |};
              Flyweight.m_buffer := b;
              Flyweight.m_baseOffset := offset |}, m)) /\
      (capacity b < offset + sizeof_struct ->
       overlayStruct sizeof_struct b offset m = (Fault BoundsFault, m) /\
       View.new sizeof_struct b offset m = (Fault BoundsFault, m))).
Proof.
  split; [reflexivity|].
  intros sizeof_struct b offset m. split.
  - intros Hin. apply boundsCheck_true in Hin.
    unfold View.new. rewrite new_unfold. unfold overlayStruct. by rewrite Hin.
  - intros Hout.
    assert (Hb : boundsCheck b offset sizeof_struct = false)
      by (apply boundsCheck_false; lia).
    unfold View.new. rewrite new_unfold. unfold overlayStruct. by rewrite Hb.
Qed.

End ConstructionAndFaults.

(** * The theorems at work on the 64-byte buffer *)

Section OnTheScenario.
Import AtomicBuffer BufferFacts.
Import Scenario.
Local Open Scope string_scope.

Lemma scenario_wf : wf buffer.
Proof. unfold wf, INT_MAX. simpl. lia. Defined.

Lemma scenario_codec :
  Flyweight.codec_correct getStringUtf8 putStringUtf8 valid_utf8 buffer.
Proof. apply atomic_buffer_codec, scenario_wf. Defined.

Lemma scenario_new (m : memory) : View.new sizeof_struct buffer 0 m = (Ok view, m).
Proof. reflexivity. Defined.

Lemma scenario_put_name : View.stringPut size_bits view 8 "abc" blank = (Ok 7, named).
Proof. vm_compute. reflexivity. Defined.


Lemma is_int_8 : is_int 8.
Proof. unfold is_int, INT_MIN, INT_MAX. lia. Defined.

Lemma stringGet_after_stringPut_witness :
  Flyweight.codec_correct getStringUtf8 putStringUtf8 valid_utf8
    (Flyweight.m_buffer view) /\
  is_int 8 /\
  valid_utf8 "abc" = true /\
  View.stringPut size_bits view 8 "abc" blank = (Ok 7, named) /\
  fst (View.stringGet size_bits view 8 named) = Ok "abc".
Proof.
  split; [exact scenario_codec|]. split; [exact is_int_8|].
  split; [reflexivity|]. split; [exact scenario_put_name|].
  exact (proj1 (stringGet_after_stringPut size_bits getStringUtf8 putStringUtf8
                  valid_utf8 view 8 "abc" blank named 7
                  scenario_codec is_int_8 eq_refl scenario_put_name)).
Defined.

Lemma views_alias_storage_witness :
  View.new sizeof_struct buffer 0 blank = (Ok view, blank) /\
  View.new 4 buffer 0 named = (Ok narrow, named) /\
  View.new sizeof_struct (Flyweight.m_buffer view) 0 tagged = (Ok view, tagged) /\
  (Flyweight.run2 size_bits getStringUtf8 putStringUtf8
     [(Flyweight.First, Flyweight.CallPut 8 "abc");
      (Flyweight.Second, Flyweight.CallGet 8);
      (Flyweight.First, Flyweight.CallPut 8 "");
      (Flyweight.Second, Flyweight.CallGet 8)] view narrow blank).1
  = ([Flyweight.Written (Ok 7); Flyweight.Got (Ok "abc");
      Flyweight.Written (Ok 4); Flyweight.Got (Ok "")], (view, narrow)).
Proof.
  split; [apply scenario_new|]. split; [reflexivity|].
  split; [apply scenario_new|].
  destruct (views_alias_storage size_bits (overlayStruct sizeof_struct)
              getStringUtf8 putStringUtf8 valid_utf8 (overlayStruct 4)
              buffer 0 view narrow view blank blank named named tagged tagged
              (scenario_new blank) eq_refl (scenario_new tagged))
    as (Hrun & _).
  rewrite (proj1 (Hrun _ blank)). vm_compute. reflexivity.
Defined.

Lemma view_is_stateless_witness :
  View.new sizeof_struct buffer 0 blank = (Ok view, blank) /\
  (View.run size_bits
     [Flyweight.CallPut 8 "abc"; Flyweight.CallGet 8; Flyweight.CallGet 100;
      Flyweight.CallPut 15 ""] view blank).1.2 = view.
Proof.
  split; [apply scenario_new|].
  exact (proj1 (view_is_stateless size_bits (overlayStruct sizeof_struct)
                  getStringUtf8 putStringUtf8 buffer 0 view blank blank
                  [Flyweight.CallPut 8 "abc"; Flyweight.CallGet 8;
                   Flyweight.CallGet 100; Flyweight.CallPut 15 ""] blank
                  (scenario_new blank))).
Defined.

Lemma stringPut_negative_offset_wraps_witness :
  32 <= size_bits /\
  is_size_t size_bits (Flyweight.m_baseOffset inner) /\
  is_int (-8) /\
  -8 < 0 /\
  to_size_t size_bits (-8) = 18446744073709551608 /\
  size_add size_bits 16 (to_size_t size_bits (-8)) = 8 /\
  View.stringPut size_bits inner (-8) "abc" blank = (Ok 7, named).
Proof.
  assert (Hw : 32 <= size_bits) by (unfold size_bits; lia).
  assert (Hb : is_size_t size_bits (Flyweight.m_baseOffset inner))
    by (unfold is_size_t, SIZE_MAX, size_bits; simpl; lia).
  assert (Hn : is_int (-8)) by (unfold is_int, INT_MIN, INT_MAX; lia).
  assert (Hneg : -8 < 0) by lia.
  destruct (stringPut_negative_offset_wraps size_bits getStringUtf8 putStringUtf8
              inner (-8) "abc" blank Hw Hb Hn Hneg)
    as (Hconv & Hadd & _ & _ & Hput & _).
  split; [exact Hw|]. split; [exact Hb|]. split; [exact Hn|]. split; [exact Hneg|].
  split; [exact Hconv|]. split; [exact Hadd|].
  etrans; [exact Hput|]. vm_compute. reflexivity.
Defined.

Lemma stringPut_size_contract_witness :
  is_int 8 /\
  View.stringPut size_bits view 8 "abc" blank = (Ok 7, named) /\
  7 = LENGTH_PREFIX_SIZE + byteLength "abc" /\
  load_bytes named (4096 + 8) 7 = (encode_int32 3 ++ utf8 "abc")%list.
Proof.
  destruct (stringPut_size_contract size_bits view 8 "abc" blank named 7
              is_int_8 scenario_put_name)
    as (_ & _ & _ & Hn & Hbytes & _).
  split; [exact is_int_8|]. split; [exact scenario_put_name|].
  split; [exact (Hn scenario_wf)|]. exact Hbytes.
Defined.


Lemma stringGet_pure_read_witness :
  View.stringGet size_bits view 8 named = (Ok "abc", named) /\
  Flyweight.stringGet_member size_bits getStringUtf8 8 view named
    = (Ok "abc", view, named).
Proof.
  destruct (stringGet_pure_read size_bits view 8 named) as (_ & _ & Hm & _ & Hget).
  assert (Hfit : byteLength "abc" <= INT_MAX) by (vm_compute; discriminate).
  assert (Hput : putStringUtf8 (Flyweight.m_buffer view) 8 "abc" blank = (Ok 7, named))
    by (vm_compute; reflexivity).
  pose proof (Hget "abc" blank 7 Hfit eq_refl Hput) as Hg.
  split; [exact Hg|]. rewrite Hm, Hg. reflexivity.
Defined.

Lemma scenario_name_and_tag_witness :
  32 <= size_bits /\
  exists (v : View.t) (m1 m2 : memory),
    View.new 8 buffer 0 blank = (Ok v, blank) /\
    View.stringPut size_bits v 8 "abc" blank = (Ok 7, m1) /\
    View.stringPut size_bits v 15 "" m1 = (Ok 4, m2) /\
    View.stringGet size_bits v 8 m2 = (Ok "abc", m2) /\
    View.stringGet size_bits v 15 m2 = (Ok "", m2).
Proof.
  assert (Hw : 32 <= size_bits) by (unfold size_bits; lia).
  split; [exact Hw|].
  exact (scenario_name_and_tag size_bits 4096 blank Hw).
Defined.

Lemma construct_is_overlay_witness :
  View.new sizeof_struct buffer 16 blank = (Ok inner, blank) /\
  View.new sizeof_struct buffer 60 blank = (Fault BoundsFault, blank).
Proof.
  destruct construct_is_overlay as [_ Hbuf].
  destruct (Hbuf sizeof_struct buffer 16 blank) as [Hin _].
  destruct (Hbuf sizeof_struct buffer 60 blank) as [_ Hout].
  split.
  - apply Hin. unfold sizeof_struct. simpl. lia.
  - apply Hout. unfold sizeof_struct. simpl. lia.
Defined.

End OnTheScenario.

(** * Further properties of the class, for any buffer collaborator *)

Section AnyBufferFurther.
Import FlyweightFacts.
Context {Buffer Mem Ref E : Type}.
Variable size_bits : Z.
Variable getStringUtf8 : Buffer -> Z -> M Mem E string.
Variable putStringUtf8 : Buffer -> Z -> string -> M Mem E Z.
Variable valid_utf8 : string -> bool.

Local Abbreviation view := (@Flyweight.t Buffer Ref).
Local Abbreviation stringGet := (Flyweight.stringGet size_bits getStringUtf8).
Local Abbreviation stringPut := (Flyweight.stringPut size_bits putStringUtf8).
Local Abbreviation run := (Flyweight.run size_bits getStringUtf8 putStringUtf8).
Local Abbreviation codec_correct :=
  (Flyweight.codec_correct getStringUtf8 putStringUtf8 valid_utf8).

(** X1 (views that meet). Two views that hold the same buffer handle, at
    whatever bases: when base plus relative offset is the same for both
    (modulo [2^w]), a [stringPut] through the one is the very same call as
    through the other, with the same result and the same memory, for every
    string and on every memory, and so is a [stringGet]. Hence, the buffer's
    pair being a codec, a valid string put through the first is what
    [stringGet] returns through the second. Only the sum of base and offset
    matters, not how it is split. *)
Theorem views_meet_at_absolute_offset (v1 v2 : view) (o1 o2 : Z) :
  Flyweight.m_buffer v2 = Flyweight.m_buffer v1 ->
  is_int o1 ->
  is_int o2 ->
  (Flyweight.m_baseOffset v1 + o1) mod 2 ^ size_bits
    = (Flyweight.m_baseOffset v2 + o2) mod 2 ^ size_bits ->
  (forall (s : string) (m : Mem), stringPut v2 o2 s m = stringPut v1 o1 s m) /\
  (forall (m : Mem),
      stringGet v2 (to_size_t size_bits o2) m
        = stringGet v1 (to_size_t size_bits o1) m) /\
  (forall (s : string) (m m' : Mem) (n : Z),
      codec_correct (Flyweight.m_buffer v1) ->
      valid_utf8 s = true ->
      stringPut v1 o1 s m = (Ok n, m') ->
      fst (stringGet v2 (to_size_t size_bits o2) m') = Ok s).
Proof.
  intros Hb _ _ Hsum.
  assert (Hput : forall s m, stringPut v2 o2 s m = stringPut v1 o1 s m).
  { intros s m. rewrite !stringPut_unfold, !size_add_to_size_t.
    by rewrite Hb, Hsum. }
  assert (Hget : forall m, stringGet v2 (to_size_t size_bits o2) m
                           = stringGet v1 (to_size_t size_bits o1) m).
  { intros m. unfold Flyweight.stringGet. rewrite !size_add_to_size_t.
    by rewrite Hb, Hsum. }
  split; [done|]. split; [done|].
  intros s m m' n Hcodec Hs Hput1. rewrite Hget.
  by apply (get_after_put size_bits getStringUtf8 putStringUtf8 valid_utf8
              v1 v1 o1 s m n m').
Qed.

(** X2 (overflow of the read offset). [stringGet] adds its offset to the
    base in [size_t] and checks nothing: when the sum exceeds [SIZE_MAX], the
    call is the buffer's get at [base + offset - 2^w], an offset that lies
    below the base of the view. *)
Theorem stringGet_offset_overflow (this : view) (off : Z) (m : Mem) :
  0 <= size_bits ->
  is_size_t size_bits (Flyweight.m_baseOffset this) ->
  is_size_t size_bits off ->
  SIZE_MAX size_bits < Flyweight.m_baseOffset this + off ->
  let a := Flyweight.m_baseOffset this + off - 2 ^ size_bits in
  stringGet this off m = getStringUtf8 (Flyweight.m_buffer this) a m /\
  0 <= a < Flyweight.m_baseOffset this.
Proof.
  intros Hw Hbase Hoff Hover a. unfold is_size_t, SIZE_MAX in *.
  assert (Hp : 0 < 2 ^ size_bits) by (apply Z.pow_pos_nonneg; lia).
  split; [|subst a; lia].
  unfold Flyweight.stringGet, size_add. f_equal.
  symmetry. apply Z.mod_unique with (q := 1); subst a; lia.
Qed.

(** X3 (reads leave no trace). If the buffer's get leaves the memory alone,
    then in any sequence of calls on a view the [stringGet] calls can be
    dropped without changing anything for the rest: the memory at the end is
    the same, and every [stringPut] has the same outcome. *)
Theorem gets_leave_no_trace (cs : list Flyweight.call) (this : view) (m : Mem) :
  (forall b a m0, snd (getStringUtf8 b a m0) = m0) ->
  (run cs this m).2 = (run (List.filter Flyweight.is_put cs) this m).2 /\
  List.filter Flyweight.is_written (run cs this m).1.1
    = (run (List.filter Flyweight.is_put cs) this m).1.1.
Proof.
  intros Hpure. revert this m.
  induction cs as [|c cs IH]; intros this m; [done|].
  destruct c as [off|off s].
  - cbn [List.filter Flyweight.is_put Flyweight.run].
    rewrite invoke_unfold.
    pose proof (Hpure (Flyweight.m_buffer this)
                  (size_add size_bits (Flyweight.m_baseOffset this) off) m) as Hm.
    fold (stringGet this off m) in Hm. rewrite Hm.
    specialize (IH this m). destruct (run cs this m) as [[os this'] m2].
    simpl in *. done.
  - cbn [List.filter Flyweight.is_put Flyweight.run].
    rewrite invoke_unfold.
    specialize (IH this (stringPut this off s m).2).
    destruct (run cs this _) as [[os this'] m2].
    destruct (run (List.filter Flyweight.is_put cs) this _) as [[os' this''] m2'].
    simpl in *. destruct IH as [-> ->]. done.
Qed.
End AnyBufferFurther.

(** * Further properties of the class over the atomic buffer *)

Module PackingFacts.
Import AtomicBuffer BufferFacts FlyweightFacts ViewFacts.
Section PackingFacts.
Variable size_bits : Z.

(** A put that faults is a bounds fault, and writes nothing. *)
Lemma putStringUtf8_Fault b offset s (m m' : memory) e :
  putStringUtf8 b offset s m = (Fault e, m') -> e = BoundsFault /\ m' = m.
Proof.
  unfold putStringUtf8. destruct (boundsCheck _ _ _); [discriminate|].
  by intros [= <- <-].
Qed.

(** What one more field does to a record under construction. *)
Lemma view_stringPut_next (v : View.t) o s (m m1 : memory) n :
  32 <= size_bits ->
  wf (Flyweight.m_buffer v) ->
  0 <= Flyweight.m_baseOffset v <= capacity (Flyweight.m_buffer v) ->
  is_int o ->
  View.stringPut size_bits v o s m = (Ok n, m1) ->
  let b := Flyweight.m_buffer v in
  let a := Flyweight.m_baseOffset v + o in
  putStringUtf8 b a s m = (Ok n, m1) /\
  n = LENGTH_PREFIX_SIZE + byteLength s /\
  0 <= a /\ a + n <= capacity b /\ is_int (o + n).
Proof.
  intros Hw Hwf Hbase Ho Hput b a.
  apply view_stringPut_Ok in Hput as (Hp & Hn & Ha0 & Hac); [|done].
  assert (Hlen : 0 <= byteLength s) by (unfold byteLength; lia).
  unfold LENGTH_PREFIX_SIZE in *.
  rewrite (put_offset_exact size_bits v o Hw Hwf Hbase Ho) in Hp, Ha0, Hac by lia.
  fold a b in Hp, Ha0, Hac.
  repeat split; try done.
  all: unfold wf, is_int, INT_MIN, INT_MAX in *; subst a b; lia.
Qed.

(** Packing fields touches nothing below the first of them, and ends at the
    starting offset plus the sizes of the fields. *)
Lemma putFields_frame (v : View.t) ss : forall o (m m' : memory) o',
  32 <= size_bits ->
  wf (Flyweight.m_buffer v) ->
  0 <= Flyweight.m_baseOffset v <= capacity (Flyweight.m_buffer v) ->
  is_int o ->
  View.putFields size_bits v o ss m = (Ok o', m') ->
  o' = o + foldr (fun s k => LENGTH_PREFIX_SIZE + byteLength s + k) 0 ss /\
  is_int o' /\
  forall x, x < ptr (Flyweight.m_buffer v) + (Flyweight.m_baseOffset v + o) ->
            load m' x = load m x.
Proof.
  induction ss as [|s ss IH]; intros o m m' o' Hw Hwf Hbase Ho Hput.
  - injection Hput as <- <-. simpl. split; [lia|done].
  - cbn [View.putFields] in Hput. unfold bind in Hput.
    destruct (View.stringPut size_bits v o s m) as [[n|e] m1] eqn:Hs; [|discriminate].
    destruct (view_stringPut_next v o s m m1 n Hw Hwf Hbase Ho Hs)
      as (Hp & Hn & Ha0 & Hac & Hon).
    destruct (IH (o + n) m1 m' o' Hw Hwf Hbase Hon Hput) as (Ho' & Hio' & Hframe).
    assert (Hlen : 0 <= byteLength s) by (unfold byteLength; lia).
    unfold LENGTH_PREFIX_SIZE in *.
    split; [cbn [foldr]; lia|]. split; [done|].
    intros x Hx. rewrite Hframe by lia.
    eapply putStringUtf8_frame; [exact Hp|]. left. lia.
Qed.

(** Fields packed one after the other are read back one after the other. *)
Lemma getFields_putFields (v : View.t) ss : forall o (m m' : memory) o',
  32 <= size_bits ->
  wf (Flyweight.m_buffer v) ->
  0 <= Flyweight.m_baseOffset v <= capacity (Flyweight.m_buffer v) ->
  is_int o ->
  0 <= o ->
  Forall (fun s => valid_utf8 s = true) ss ->
  View.putFields size_bits v o ss m = (Ok o', m') ->
  View.getFields size_bits v o (length ss) m' = (Ok ss, m').
Proof.
  induction ss as [|s ss IH]; intros o m m' o' Hw Hwf Hbase Ho Ho0 Hvalid Hput.
  - reflexivity.
  - apply Forall_cons in Hvalid as [Hs Hss].
    cbn [View.putFields] in Hput. unfold bind in Hput.
    destruct (View.stringPut size_bits v o s m) as [[n|e] m1] eqn:Hs1; [|discriminate].
    destruct (view_stringPut_next v o s m m1 n Hw Hwf Hbase Ho Hs1)
      as (Hp & Hn & Ha0 & Hac & Hon).
    destruct (putFields_frame v ss (o + n) m1 m' o' Hw Hwf Hbase Hon Hput)
      as (_ & _ & Hframe).
    assert (Hlen : 0 <= byteLength s) by (unfold byteLength; lia).
    assert (Hget : View.stringGet size_bits v o m' = (Ok s, m')).
    { unfold View.stringGet, Flyweight.stringGet, size_add.
      pose proof (pow_size_bits_ge size_bits Hw).
      rewrite Z.mod_small by (unfold wf, INT_MAX, LENGTH_PREFIX_SIZE in *; lia).
      apply getStringUtf8_encoded_at; [done| | |done].
      - by apply putStringUtf8_Ok in Hp as (? & _).
      - eapply encoded_at_frame; [|by eapply putStringUtf8_encoded_at].
        intros x Hx. apply Hframe. lia. }
    cbn [length View.getFields]. unfold bind. rewrite Hget.
    rewrite <- Hn.
    rewrite (IH (o + n) m1 m' o') by (done || unfold LENGTH_PREFIX_SIZE in *; lia).
    reflexivity.
Qed.
End PackingFacts.
End PackingFacts.

Section OverAtomicBufferFurther.
Import AtomicBuffer BufferFacts FlyweightFacts ViewFacts PackingFacts.
Variable size_bits : Z.
Variable sizeof_struct : Z.

(** X5 (the fixed record is spared). On a constructed view, a [stringPut]
    at a relative offset that is not below [sizeof(struct_t)] leaves every
    byte of the overlaid record as it was, whether it returns or faults. *)
Theorem string_fields_spare_the_record (b : t) (base : Z) (m0 m0' : memory)
    (v : View.t) (off : Z) (s : string) (m : memory) (x : Z) :
  32 <= size_bits ->
  wf b ->
  View.new sizeof_struct b base m0 = (Ok v, m0') ->
  is_int off ->
  sizeof_struct <= off ->
  ref_addr (Flyweight.m_struct v) <= x
    < ref_addr (Flyweight.m_struct v) + ref_size (Flyweight.m_struct v) ->
  load (View.stringPut size_bits v off s m).2 x = load m x.
Proof.
  intros Hw Hwf (_ & Hv & Hb0 & Hsz & Hcap)%view_new_Ok Hoff Hge Hx.
  assert (Hbase : 0 <= Flyweight.m_baseOffset v <= capacity (Flyweight.m_buffer v))
    by (rewrite Hv; simpl; lia).
  assert (Hwfv : wf (Flyweight.m_buffer v)) by (by rewrite Hv).
  destruct (View.stringPut size_bits v off s m) as [[n|e] m'] eqn:Hput.
  - destruct (view_stringPut_next size_bits v off s m m' n Hw Hwfv Hbase Hoff Hput)
      as (Hp & _).
    eapply putStringUtf8_frame; [exact Hp|].
    left. rewrite Hv in Hx |- *. simpl in *. lia.
  - by apply stringPut_Fault, putStringUtf8_Fault in Hput as [_ ->].
Qed.

(** X6 (disjoint fields). Two constructed views over one buffer: after a
    string was put through the first, a put through the second whose bytes
    do not overlap those of the first leaves the first field readable, with
    the value that was put. *)
Theorem disjoint_fields_independent (b : t) (base1 base2 : Z)
    (m01 m01' m02 m02' : memory) (v1 v2 : View.t)
    (o1 o2 : Z) (A B : string) (m m1 m2 : memory) (nA nB : Z) :
  32 <= size_bits ->
  wf b ->
  View.new sizeof_struct b base1 m01 = (Ok v1, m01') ->
  View.new sizeof_struct b base2 m02 = (Ok v2, m02') ->
  is_int o1 ->
  is_int o2 ->
  valid_utf8 A = true ->
  View.stringPut size_bits v1 o1 A m = (Ok nA, m1) ->
  View.stringPut size_bits v2 o2 B m1 = (Ok nB, m2) ->
  base1 + o1 + nA <= base2 + o2 \/ base2 + o2 + nB <= base1 + o1 ->
  View.stringGet size_bits v1 (to_size_t size_bits o1) m2 = (Ok A, m2).
Proof.
  intros Hw Hwf (_ & Hv1 & Hb1 & Hsz & Hc1)%view_new_Ok
         (_ & Hv2 & Hb2 & _ & Hc2)%view_new_Ok Ho1 Ho2 HA HputA HputB Hdisj.
  assert (Hbase1 : 0 <= Flyweight.m_baseOffset v1 <= capacity (Flyweight.m_buffer v1))
    by (rewrite Hv1; simpl; lia).
  assert (Hbase2 : 0 <= Flyweight.m_baseOffset v2 <= capacity (Flyweight.m_buffer v2))
    by (rewrite Hv2; simpl; lia).
  assert (Hwf1 : wf (Flyweight.m_buffer v1)) by (by rewrite Hv1).
  assert (Hwf2 : wf (Flyweight.m_buffer v2)) by (by rewrite Hv2).
  destruct (view_stringPut_next size_bits v1 o1 A m m1 nA Hw Hwf1 Hbase1 Ho1 HputA)
    as (HpA & HnA & HaA0 & HaA & _).
  destruct (view_stringPut_next size_bits v2 o2 B m1 m2 nB Hw Hwf2 Hbase2 Ho2 HputB)
    as (HpB & HnB & HaB0 & HaB & _).
  unfold View.stringGet, Flyweight.stringGet. rewrite size_add_to_size_t.
  pose proof (pow_size_bits_ge size_bits Hw).
  rewrite Z.mod_small by (unfold wf, INT_MAX in *; rewrite HnA in HaA;
                          unfold LENGTH_PREFIX_SIZE, byteLength in *; lia).
  apply getStringUtf8_encoded_at; [done| | |done].
  - by apply putStringUtf8_Ok in HpA as (? & _).
  - eapply encoded_at_frame; [|by eapply putStringUtf8_encoded_at].
    intros x Hx. eapply putStringUtf8_frame; [exact HpB|].
    rewrite Hv1, Hv2 in *. simpl in *. rewrite <- HnA in Hx. lia.
Qed.

(** X7 (a packed record). On a constructed view, any number of valid
    strings, of any lengths, packed one after the other from a non-negative
    relative offset on (each at the offset of the previous one plus the size
    [stringPut] returned for it) are read back, in order, by as many
    [stringGet] calls that step over each field by its length field and its
    bytes; the offset after the last field is the starting offset plus the
    sizes of all fields, and is still an [int]. *)
Theorem packed_fields_round_trip (b : t) (base : Z) (m0 m0' : memory)
    (v : View.t) (o : Z) (ss : list string) (m m' : memory) (o' : Z) :
  32 <= size_bits ->
  wf b ->
  View.new sizeof_struct b base m0 = (Ok v, m0') ->
  is_int o ->
  0 <= o ->
  Forall (fun s => valid_utf8 s = true) ss ->
  View.putFields size_bits v o ss m = (Ok o', m') ->
  o' = o + foldr (fun s k => LENGTH_PREFIX_SIZE + byteLength s + k) 0 ss /\
  is_int o' /\
  View.getFields size_bits v o (length ss) m' = (Ok ss, m').
Proof.
  intros Hw Hwf (_ & Hv & Hb0 & Hsz & Hcap)%view_new_Ok Ho Ho0 Hvalid Hput.
  assert (Hbase : 0 <= Flyweight.m_baseOffset v <= capacity (Flyweight.m_buffer v))
    by (rewrite Hv; simpl; lia).
  assert (Hwfv : wf (Flyweight.m_buffer v)) by (by rewrite Hv).
  destruct (putFields_frame size_bits v ss o m m' o' Hw Hwfv Hbase Ho Hput)
    as (Ho' & Hio' & _).
  split; [done|]. split; [done|].
  by eapply getFields_putFields.
Qed.
End OverAtomicBufferFurther.

(** * The further properties at work on the 64-byte buffer *)

Section FurtherOnTheScenario.
Import AtomicBuffer BufferFacts.
Import Scenario.
Local Open Scope string_scope.

Lemma is_int_small (z : Z) : -100 <= z <= 100 -> is_int z.
Proof. unfold is_int, INT_MIN, INT_MAX. lia. Defined.

Lemma size_bits_ge_32 : 32 <= size_bits.
Proof. unfold size_bits. lia. Defined.

Lemma views_meet_at_absolute_offset_witness :
  Flyweight.m_buffer inner = Flyweight.m_buffer view /\
  (Flyweight.m_baseOffset view + 8) mod 2 ^ size_bits
    = (Flyweight.m_baseOffset inner + -8) mod 2 ^ size_bits /\
  View.stringPut size_bits inner (-8) "abc" blank
    = View.stringPut size_bits view 8 "abc" blank /\
  fst (View.stringGet size_bits inner (to_size_t size_bits (-8)) named) = Ok "abc".
Proof.
  destruct (views_meet_at_absolute_offset (Ref := ref) size_bits getStringUtf8
              putStringUtf8 valid_utf8 view inner 8 (-8)
              eq_refl (is_int_small 8 ltac:(lia)) (is_int_small (-8) ltac:(lia))
              eq_refl)
    as (Hput & _ & Hget).
  split; [reflexivity|]. split; [reflexivity|]. split; [apply Hput|].
  exact (Hget "abc" blank named 7 scenario_codec eq_refl scenario_put_name).
Defined.

Lemma stringGet_offset_overflow_witness :
  is_size_t size_bits (Flyweight.m_baseOffset inner) /\
  is_size_t size_bits 18446744073709551608 /\
  SIZE_MAX size_bits < Flyweight.m_baseOffset inner + 18446744073709551608 /\
  View.stringGet size_bits inner 18446744073709551608 named
    = getStringUtf8 buffer 8 named.
Proof.
  assert (Hw : 0 <= size_bits) by (unfold size_bits; lia).
  assert (Hb : is_size_t size_bits (Flyweight.m_baseOffset inner))
    by (unfold is_size_t, SIZE_MAX, size_bits; simpl; lia).
  assert (Ho : is_size_t size_bits 18446744073709551608)
    by (unfold is_size_t, SIZE_MAX, size_bits; lia).
  assert (Hover : SIZE_MAX size_bits < Flyweight.m_baseOffset inner + 18446744073709551608)
    by (unfold SIZE_MAX, size_bits; simpl; lia).
  split; [exact Hb|]. split; [exact Ho|]. split; [exact Hover|].
  exact (proj1 (stringGet_offset_overflow (Ref := ref) size_bits getStringUtf8 inner
                  18446744073709551608 named Hw Hb Ho Hover)).
Defined.

Lemma gets_leave_no_trace_witness :
  (forall b a (m0 : memory), snd (getStringUtf8 b a m0) = m0) /\
  (View.run size_bits
     [Flyweight.CallPut 8 "abc"; Flyweight.CallGet 8; Flyweight.CallGet 100;
      Flyweight.CallPut 15 ""] view blank).2
  = (View.run size_bits
       [Flyweight.CallPut 8 "abc"; Flyweight.CallPut 15 ""] view blank).2.
Proof.
  split; [exact getStringUtf8_pure|].
  exact (proj1 (gets_leave_no_trace size_bits getStringUtf8 putStringUtf8
                  [Flyweight.CallPut 8 "abc"; Flyweight.CallGet 8;
                   Flyweight.CallGet 100; Flyweight.CallPut 15 ""] view blank
                  getStringUtf8_pure)).
Defined.

Lemma string_fields_spare_the_record_witness :
  View.new sizeof_struct buffer 0 blank = (Ok view, blank) /\
  sizeof_struct <= 8 /\
  load (View.stringPut size_bits view 8 "abc" blank).2 4099 = load blank 4099.
Proof.
  split; [apply scenario_new|]. split; [unfold sizeof_struct; lia|].
  apply (string_fields_spare_the_record size_bits sizeof_struct buffer 0 blank blank
           view 8 "abc" blank 4099 size_bits_ge_32 scenario_wf (scenario_new blank)
           (is_int_small 8 ltac:(lia)));
    [unfold sizeof_struct; lia|simpl; lia].
Defined.

Lemma scenario_new_inner (m : memory) :
  View.new sizeof_struct buffer 16 m = (Ok inner, m).
Proof. reflexivity. Defined.

Lemma disjoint_fields_independent_witness :
  View.stringPut size_bits view 8 "abc" blank = (Ok 7, named) /\
  View.stringPut size_bits inner 0 "de" named
    = (Ok 6, (View.stringPut size_bits inner 0 "de" named).2) /\
  View.stringGet size_bits view 8 (View.stringPut size_bits inner 0 "de" named).2
    = (Ok "abc", (View.stringPut size_bits inner 0 "de" named).2).
Proof.
  assert (HputB : View.stringPut size_bits inner 0 "de" named
                  = (Ok 6, (View.stringPut size_bits inner 0 "de" named).2))
    by (vm_compute; reflexivity).
  split; [exact scenario_put_name|]. split; [exact HputB|].
  apply (disjoint_fields_independent size_bits sizeof_struct buffer 0 16
           blank blank blank blank view inner 8 0 "abc" "de" blank named _ 7 6
           size_bits_ge_32 scenario_wf (scenario_new blank) (scenario_new_inner blank)
           (is_int_small 8 ltac:(lia)) (is_int_small 0 ltac:(lia)) eq_refl
           scenario_put_name HputB).
  left. lia.
Defined.

Lemma packed_fields_round_trip_witness :
  Forall (fun s => valid_utf8 s = true) ["abc"; ""; "de"] /\
  View.putFields size_bits view 8 ["abc"; ""; "de"] blank
    = (Ok 25, (View.putFields size_bits view 8 ["abc"; ""; "de"] blank).2) /\
  View.getFields size_bits view 8 3
      (View.putFields size_bits view 8 ["abc"; ""; "de"] blank).2
    = (Ok ["abc"; ""; "de"],
       (View.putFields size_bits view 8 ["abc"; ""; "de"] blank).2).
Proof.
  assert (Hvalid : Forall (fun s => valid_utf8 s = true) ["abc"; ""; "de"])
    by (repeat constructor).
  assert (Hput : View.putFields size_bits view 8 ["abc"; ""; "de"] blank
                 = (Ok 25, (View.putFields size_bits view 8 ["abc"; ""; "de"] blank).2))
    by (vm_compute; reflexivity).
  split; [exact Hvalid|]. split; [exact Hput|].
  exact (proj2 (proj2 (packed_fields_round_trip size_bits sizeof_struct buffer 0
                         blank blank view 8 ["abc"; ""; "de"] blank _ 25
                         size_bits_ge_32 scenario_wf (scenario_new blank)
                         (is_int_small 8 ltac:(lia)) ltac:(lia) Hvalid Hput))).
Defined.
End FurtherOnTheScenario.

(** * Where the claims fail as stated *)

Section Counterexamples.
Import AtomicBuffer BufferFacts FlyweightFacts ViewFacts LimitFacts.
Local Open Scope string_scope.

(** C2, as stated, fails: on the 8 GiB buffer, [stringPut] of the string of
    [2^31] bytes returns, and what it returns is [4 - 2^31], while
    [lengthPrefixSize + byteLength] is [2^31 + 4]: the size does not fit the
    [std::int32_t] the accessor returns. *)
Lemma stringPut_size_contract_counterexample :
  exists m1 : memory,
    View.stringPut Huge.size_bits Huge.view 8 Huge.payload ∅ = (Ok (4 - 2 ^ 31), m1) /\
    LENGTH_PREFIX_SIZE + byteLength Huge.payload = 2 ^ 31 + 4 /\
    4 - 2 ^ 31 <> LENGTH_PREFIX_SIZE + byteLength Huge.payload.
Proof.
  destruct (stringPut_payload ∅) as (m1 & Hput & _). exists m1.
  split; [exact Hput|]. rewrite byteLength_payload.
  split; [reflexivity|]. unfold LENGTH_PREFIX_SIZE. lia.
Qed.




(** Bytes that are not valid UTF-8 are written by the encoder, and the read
    raises an encoding fault. *)
Lemma invalid_string_read_back :
  exists m1 : memory,
    putStringUtf8 Scenario.buffer 8 Scenario.invalid Scenario.blank = (Ok 5, m1) /\
    View.stringGet Scenario.size_bits Scenario.view 8 m1
      = (Fault EncodingFault, m1).
Proof.
  exists (putStringUtf8 Scenario.buffer 8 Scenario.invalid Scenario.blank).2.
  split; vm_compute; reflexivity.
Qed.

(** The string of [2^31] bytes is written by the encoder; its length field
    then reads as a negative number, and the read raises a bounds fault. *)
Lemma payload_read_back :
  exists m1 : memory,
    putStringUtf8 Huge.buffer 8 Huge.payload ∅ = (Ok (2 ^ 31 + 4), m1) /\
    View.stringGet Huge.size_bits Huge.view 8 m1 = (Fault BoundsFault, m1).
Proof.
  destruct (put_payload ∅) as (m1 & Hput & Henc). exists m1. split; [exact Hput|].
  apply encoded_at_prefix in Henc. rewrite byteLength_payload in Henc.
  clear Hput.
  unfold View.stringGet, Flyweight.stringGet.
  assert (Ha : size_add Huge.size_bits (Flyweight.m_baseOffset Huge.view) 8 = 8)
    by (vm_compute; reflexivity).
  rewrite Ha. change (Flyweight.m_buffer Huge.view) with Huge.buffer.
  unfold getStringUtf8.
  assert (Hb1 : boundsCheck Huge.buffer 8 LENGTH_PREFIX_SIZE = true)
    by (vm_compute; reflexivity).
  rewrite Hb1, Henc.
  assert (Hd : decode_int32 (encode_int32 (2 ^ 31)) = - 2 ^ 31)
    by (vm_compute; reflexivity).
  rewrite Hd.
  assert (Hb2 : boundsCheck Huge.buffer (8 + LENGTH_PREFIX_SIZE) (- 2 ^ 31) = false)
    by (vm_compute; reflexivity).
  clear Henc. rewrite Hb2. reflexivity.
Qed.

(** C4, as stated, fails, in two ways: what an encoder using the same
    convention has written is not returned when it is not valid UTF-8 (the
    read raises an encoding fault), nor when it is longer than [INT_MAX]
    bytes (the length field then reads as a negative number, and the read
    raises a bounds fault). *)
Lemma stringGet_pure_read_counterexample :
  (exists m1 : memory,
      putStringUtf8 Scenario.buffer 8 Scenario.invalid Scenario.blank = (Ok 5, m1) /\
      View.stringGet Scenario.size_bits Scenario.view 8 m1
        = (Fault EncodingFault, m1)) /\
  (exists m1 : memory,
      putStringUtf8 Huge.buffer 8 Huge.payload ∅ = (Ok (2 ^ 31 + 4), m1) /\
      View.stringGet Huge.size_bits Huge.view 8 m1 = (Fault BoundsFault, m1)).
Proof. exact (conj invalid_string_read_back payload_read_back). Qed.
End Counterexamples.
